(** * The deferred_work queue worker of Zulip

    A shallow embedding of [DeferredWorker.consume]
    (zerver/worker/deferred_work.py) and the properties of its batch
    cursor loop, its retry policy, its export state machine and its
    dispatch contract.

    The handler is one Python method that reads the system clocks, the
    database and the queue, and calls into business operations of other
    modules.  It is embedded as a computation in a state-and-exception
    monad over a [World]: the database tables the method queries itself
    are concrete, the business operations it calls are parameters of the
    development, and every log record, notification, queue publication and
    call to a business operation is appended to a trace. *)

From stdpp Require Import gmap strings list sorting.
From Stdlib Require Import QArith.
Local Close Scope Q_scope.
Local Open Scope Z_scope.

(** ** Job events *)

(** The JSON values an event carries. *)
Inductive value :=
| VInt (n : Z)
| VStr (s : string)
| VList (l : list Z)
| VNull.

Global Instance value_eq_dec : EqDecision value.
Proof. solve_decision. Defined.

(** [event: dict[str, Any]]. *)
Abbreviation event := (gmap string value).

(** ** Exceptions *)

(** The exceptions the handler can meet.  [NonException] stands for the
    subclasses of [BaseException] that are not subclasses of [Exception]
    (KeyboardInterrupt, SystemExit), which [except Exception] lets
    through. *)
Inductive exn :=
| KeyError (key : string)
| TypeError
| ValueError
| DoesNotExist (model : string)
| PushNotificationBouncerRetryLaterError
| OtherException (name : string)
| NonException (name : string).

Global Instance exn_eq_dec : EqDecision exn.
Proof. solve_decision. Defined.

Definition is_Exception (e : exn) : bool :=
  match e with
  | NonException _ => false
  | _ => true
  end.

(** What a call to a business operation of another module gives back. *)
Inductive outcome (A : Type) :=
| Returns (a : A)
| Raises (e : exn).
Arguments Returns {A} a.
Arguments Raises {A} e.

(** What a computation of the handler gives back; [OutOfFuel] is the
    model's own: the [while True] loop is run on a fuel, and the handler
    is shown never to end there. *)
Inductive result (A : Type) :=
| Ok (a : A)
| Raise (e : exn)
| OutOfFuel.
Arguments Ok {A} a.
Arguments Raise {A} e.
Arguments OutOfFuel {A}.

(** ** Database rows *)

Record Realm := { realm_id : Z; string_id : string }.

Record UserProfile := {
  up_id : Z;
  up_realm : Realm;
  default_language : string
}.

Record Stream := { stream_realm_id : Z }.

(** A row of zerver_message; the primary key is the key of the table. *)
Record Message := { msg_realm_id : Z; msg_recipient_id : Z }.

Record UserMessage := {
  um_user_profile_id : Z;
  um_message_id : Z;
  um_flags : Z
}.

(** Modelled from the spec: the status enumeration of the RealmExport
    model (zerver/models), of which the handler names REQUESTED and
    FAILED; the spec gives {REQUESTED, IN_PROGRESS, FAILED, COMPLETED}. *)
Inductive export_status := REQUESTED | IN_PROGRESS | FAILED | COMPLETED.

Global Instance export_status_eq_dec : EqDecision export_status.
Proof. solve_decision. Defined.

Inductive export_type := EXPORT_PUBLIC | EXPORT_OTHER (n : Z).

Record RealmExport := {
  export_id : Z;
  export_realm : Realm;
  export_kind : export_type;
  acting_user : UserProfile;
  status : export_status;
  date_requested : value;
  date_failed : option Q
}.

Record RealmAuditLog := { extra_data : gmap string value }.

Definition set_failed (t : Q) (r : RealmExport) : RealmExport :=
  {| export_id := export_id r; export_realm := export_realm r;
     export_kind := export_kind r; acting_user := acting_user r;
     status := FAILED; date_requested := date_requested r;
     date_failed := Some t |}.

(** ** The trace *)

Inductive logger_id := module_logger | root_logger.
Inductive level := INFO | WARNING | ERROR | EXCEPTION.

Inductive logarg :=
| AInt (n : Z)
| AStr (s : string)
| AVal (v : value)
| ATime (t : Q).

Inductive extfn :=
| fn_get_user_profile_by_id
| fn_do_mark_stream_messages_as_read
| fn_clear_push_device_tokens
| fn_mkdtemp
| fn_export_realm_wrapper
| fn_get_system_bot
| fn_handle_reupload_emojis_event
| fn_reactivate_user_if_soft_deactivated
| fn_send_server_data_to_push_bouncer.

Global Instance extfn_eq_dec : EqDecision extfn.
Proof. solve_decision. Defined.

(** One entry per thing the handler does to the outside. *)
Inductive effect :=
| Log (lg : logger_id) (lv : level) (fmt : string) (args : list logarg)
| Call (f : extfn) (args : list logarg)
| AtomicMarkRead (message_ids : list Z)
| Published (queue_name : string) (ev : event)
| Retried (queue_name : string) (ev : event)
| NotifyRealmExport (realm : Realm)
| SendPrivateMessage (sender recipient : UserProfile) (content : string).

(** A queued event with the attempt counter the queueing layer keeps. *)
Record envelope := {
  env_queue : string;
  env_attempts : nat;
  env_event : event
}.

Definition batch_size : nat := 50.
Definition time_budget : Q := 30%Q.
Definition queue_name : string := "deferred_work".

Definition next_id {A} (m : gmap Z A) : Z :=
  1 + foldr Z.max 0 (map fst (map_to_list m)).

Section Worker.

(** State of the collaborators outside the tables below (user cache,
    file system, push bouncer, upload backend). *)
Context {Ext : Type}.

Record Store := {
  ext : Ext;
  messages : gmap Z Message;
  usermessages : list UserMessage;
  streams : gmap Z Stream;          (* keyed by recipient_id *)
  realms : gmap Z Realm;
  exports : gmap Z RealmExport;
  auditlogs : gmap Z RealmAuditLog
}.

Definition set_usermessages (f : list UserMessage → list UserMessage) (s : Store) :=
  {| ext := ext s; messages := messages s; usermessages := f (usermessages s);
     streams := streams s; realms := realms s; exports := exports s;
     auditlogs := auditlogs s |}.

Definition set_exports (f : gmap Z RealmExport → gmap Z RealmExport) (s : Store) :=
  {| ext := ext s; messages := messages s; usermessages := usermessages s;
     streams := streams s; realms := realms s; exports := f (exports s);
     auditlogs := auditlogs s |}.

Definition set_auditlogs (f : gmap Z RealmAuditLog → gmap Z RealmAuditLog) (s : Store) :=
  {| ext := ext s; messages := messages s; usermessages := usermessages s;
     streams := streams s; realms := realms s; exports := exports s;
     auditlogs := f (auditlogs s) |}.

(** The world the handler runs in.  The clocks are oracles: the n-th
    read of a clock gives its n-th reading. *)
Record World := {
  store : Store;
  queue : list envelope;
  trace : list effect;
  wall : nat → Q;
  wall_reads : nat;
  perf : nat → Q;
  perf_reads : nat;
  delivery_attempts : nat
}.

Definition set_store (f : Store → Store) (w : World) :=
  {| store := f (store w); queue := queue w; trace := trace w;
     wall := wall w; wall_reads := wall_reads w;
     perf := perf w; perf_reads := perf_reads w;
     delivery_attempts := delivery_attempts w |}.

Definition set_queue (f : list envelope → list envelope) (w : World) :=
  {| store := store w; queue := f (queue w); trace := trace w;
     wall := wall w; wall_reads := wall_reads w;
     perf := perf w; perf_reads := perf_reads w;
     delivery_attempts := delivery_attempts w |}.

Definition set_trace (f : list effect → list effect) (w : World) :=
  {| store := store w; queue := queue w; trace := f (trace w);
     wall := wall w; wall_reads := wall_reads w;
     perf := perf w; perf_reads := perf_reads w;
     delivery_attempts := delivery_attempts w |}.

Definition tick_wall (w : World) :=
  {| store := store w; queue := queue w; trace := trace w;
     wall := wall w; wall_reads := S (wall_reads w);
     perf := perf w; perf_reads := perf_reads w;
     delivery_attempts := delivery_attempts w |}.

Definition tick_perf (w : World) :=
  {| store := store w; queue := queue w; trace := trace w;
     wall := wall w; wall_reads := wall_reads w;
     perf := perf w; perf_reads := S (perf_reads w);
     delivery_attempts := delivery_attempts w |}.

(** ** The monad of the handler *)

Definition M (A : Type) : Type := World → result A * World.

Definition ret {A} (a : A) : M A := λ w, (Ok a, w).

Definition bind {A B} (c : M A) (k : A → M B) : M B :=
  λ w, match c w with
       | (Ok a, w') => k a w'
       | (Raise e, w') => (Raise e, w')
       | (OutOfFuel, w') => (OutOfFuel, w')
       end.

Definition raise {A} (e : exn) : M A := λ w, (Raise e, w).

Definition out_of_fuel {A} : M A := λ w, (OutOfFuel, w).

Definition emit (e : effect) : M unit :=
  λ w, (Ok tt, set_trace (λ t, t ++ [e]) w).

Definition get_store : M Store := λ w, (Ok (store w), w).

Definition modify_store (f : Store → Store) : M unit :=
  λ w, (Ok tt, set_store f w).

(** [time.time()] and [timezone_now()] read the wall clock,
    [time.perf_counter()] the performance counter. *)
Definition time_time : M Q := λ w, (Ok (wall w (wall_reads w)), tick_wall w).
Definition timezone_now : M Q := time_time.
Definition perf_counter : M Q := λ w, (Ok (perf w (perf_reads w)), tick_perf w).

(** A call to a business operation: recorded, run on the store, and its
    exception raised here. *)
Definition call {A} (f : extfn) (args : list logarg)
    (op : Store → Store * outcome A) : M A :=
  λ w, let w1 := set_trace (λ t, t ++ [Call f args]) w in
       match op (store w1) with
       | (s', Returns a) => (Ok a, set_store (λ _, s') w1)
       | (s', Raises e) => (Raise e, set_store (λ _, s') w1)
       end.

(** [try: c except <class>: handler], the class given by the
    exceptions it matches. *)
Definition try_except {A} (c : M A) (class : exn → bool) (handler : M A) : M A :=
  λ w, match c w with
       | (Raise e, w') => if class e then handler w' else (Raise e, w')
       | r => r
       end.

Notation "'let*' x := c 'in' k" := (bind c (λ x, k))
  (at level 10, x pattern, c at level 100, k at level 200).
Notation "c ;; k" := (bind c (λ _, k))
  (at level 100, k at level 200, right associativity).

(** ** Collaborators

    The business operations, settings and model helpers the handler
    imports from other modules. *)
Record Collaborators := {
  threaded : bool;
  NOTIFICATION_BOT : string;
  flags_read : Z;
  where_unread : UserMessage → bool;
  translate : string → string → string;
  str_format : string → string → string;
  get_user_profile_by_id : Store → value → Store * outcome UserProfile;
  do_mark_stream_messages_as_read :
    Store → UserProfile → value → Store * outcome Z;
  clear_push_device_tokens : Store → value → Store * outcome unit;
  mkdtemp : Store → string → Store * outcome string;
  export_realm_wrapper :
    Store → RealmExport → string → Z → bool → Store * outcome unit;
  get_system_bot : Store → string → Z → Store * outcome UserProfile;
  handle_reupload_emojis_event : Store → Realm → Store * outcome unit;
  reactivate_user_if_soft_deactivated :
    Store → UserProfile → Store * outcome unit;
  send_server_data_to_push_bouncer : Store → bool → Store * outcome unit;
  (* django.utils.dateparse: the string is read as a date or a datetime *)
  datetime_valid : string → bool
}.

Variable C : Collaborators.

(** Modelled from the spec: the maximum attempt count of the queueing
    layer (zerver/lib/queue), a configuration constant. *)
Variable MAX_REQUEST_RETRIES : nat.

(** ** Primitives of the handler *)

(** [event[k]] *)
Definition getitem (ev : event) (k : string) : M value :=
  match ev !! k with
  | Some v => ret v
  | None => raise (KeyError k)
  end.

(** The ORM looks rows up by integer keys; a key of another type is
    refused (the coercion of numeric strings is left out). *)
Definition as_int (v : value) : M Z :=
  match v with
  | VInt n => ret n
  | _ => raise ValueError
  end.

(** [Model.objects.get(key=v)] *)
Definition objects_get {A} (model : string) (table : Store → gmap Z A)
    (v : value) : M A :=
  let* k := as_int v in
  let* s := get_store in
  match table s !! k with
  | Some r => ret r
  | None => raise (DoesNotExist model)
  end.

Definition logger_info (fmt : string) (args : list logarg) : M unit :=
  emit (Log module_logger INFO fmt args).

(** [queue_json_publish_rollback_unsafe(queue_name, event)]: the event
    goes to the tail of the queue as a fresh delivery. *)
Definition queue_json_publish_rollback_unsafe (q : string) (ev : event) : M unit :=
  emit (Published q ev);;
  λ w, (Ok tt, set_queue (λ l, l ++ [{| env_queue := q; env_attempts := 0;
                                          env_event := ev |}]) w).

(** Modelled from the spec: [retry_event] of zerver/lib/queue.  The
    queueing layer keeps an attempt counter with the delivered event; a
    transient failure re-submits the same event for a later attempt, and
    when the maximum attempt count is reached the terminal-failure
    handler of the caller is invoked instead and nothing is re-submitted. *)
Definition retry_event (q : string) (ev : event)
    (failure_processor : event → M unit) : M unit :=
  λ w, let n := S (delivery_attempts w) in
       if (MAX_REQUEST_RETRIES <=? n)%nat then failure_processor ev w
       else (emit (Retried q ev);;
             λ w, (Ok tt, set_queue (λ l, l ++ [{| env_queue := q; env_attempts := n;
                                                     env_event := ev |}]) w)) w.

(** ** mark_stream_messages_as_read *)

(** [for x in v] over a JSON value. *)
Definition iterate (v : value) : M (list value) :=
  match v with
  | VList l => ret (VInt <$> l)
  | VStr s => ret ((λ c, VStr (String c EmptyString)) <$> String.list_ascii_of_string s)
  | _ => raise TypeError
  end.

Fixpoint for_each {A} (l : list A) (body : A → M unit) : M unit :=
  match l with
  | [] => ret tt
  | x :: l' => body x;; for_each l' body
  end.

Inductive flow := Fallthrough | Return.

Definition mark_stream_messages_as_read (ev : event) : M flow :=
  let* uid := getitem ev "user_profile_id" in
  let* user_profile :=
    call fn_get_user_profile_by_id [AVal uid] (λ s, get_user_profile_by_id C s uid) in
  let* rids := getitem ev "stream_recipient_ids" in
  logger_info "Marking messages as read for user %s, stream_recipient_ids %s"
    [AInt (up_id user_profile); AVal rids];;
  let* rids' := getitem ev "stream_recipient_ids" in
  let* l := iterate rids' in
  for_each l (λ recipient_id,
    let* count :=
      call fn_do_mark_stream_messages_as_read [AInt (up_id user_profile); AVal recipient_id]
        (λ s, do_mark_stream_messages_as_read C s user_profile recipient_id) in
    logger_info "Marked %s messages as read for user %s, stream_recipient_id %s"
      [AInt count; AInt (up_id user_profile); AVal recipient_id]);;
  ret Fallthrough.

(** ** mark_stream_messages_as_read_for_everyone: the batch loop *)

(** The query of one batch: the ids of the messages of the stream beyond
    [min_id], in ascending order, cut at [batch_size]. *)
Definition select_messages (s : Store) (realm recipient min_id : Z) : list Z :=
  take batch_size
    (merge_sort Z.le
       (map fst
          (filter (λ im : Z * Message,
                     msg_realm_id im.2 = realm ∧ msg_recipient_id im.2 = recipient
                     ∧ min_id < im.1)
             (map_to_list (messages s))))).

(** The update of one batch: the unread rows of the selected messages
    get the read flag. *)
Definition update_read (ids : list Z) (um : UserMessage) : UserMessage :=
  if bool_decide (um_message_id um ∈ ids) && where_unread C um
  then {| um_user_profile_id := um_user_profile_id um;
          um_message_id := um_message_id um;
          um_flags := Z.lor (um_flags um) (flags_read C) |}
  else um.

Definition over_budget (start_time now : Q) : bool :=
  negb (Qle_bool (now - start_time)%Q time_budget).

Fixpoint mark_loop (fuel : nat) (ev : event) (realm recipient : Z)
    (start_time : Q) (min_id total_messages : Z) : M Z :=
  match fuel with
  | O => out_of_fuel
  | S fuel' =>
      let* s := get_store in
      let msgs := select_messages s realm recipient min_id in
      modify_store (set_usermessages (map (update_read msgs)));;
      emit (AtomicMarkRead msgs);;
      let total_messages := total_messages + Z.of_nat (length msgs) in
      if (length msgs <? batch_size)%nat then ret total_messages
      else
        match last msgs with
        | None => raise (OtherException "IndexError")
        | Some min_id =>
            let* t := perf_counter in
            if over_budget start_time t then
              queue_json_publish_rollback_unsafe "deferred_work"
                (<["min_id" := VInt min_id]> ev);;
              ret total_messages
            else mark_loop fuel' ev realm recipient start_time min_id total_messages
        end
  end.

Definition mark_stream_messages_as_read_for_everyone (ev : event) : M flow :=
  let* rid := getitem ev "stream_recipient_id" in
  logger_info "Marking messages as read for all users, stream_recipient_id %s" [AVal rid];;
  let* rid' := getitem ev "stream_recipient_id" in
  let* stream := objects_get "Stream" streams rid' in
  let* start_time := perf_counter in
  let* min_id := as_int (default (VInt 0) (ev !! "min_id")) in
  let* recipient := getitem ev "stream_recipient_id" in
  let* recipient := as_int recipient in
  let* s := get_store in
  let* total_messages :=
    mark_loop (S (size (messages s))) ev (stream_realm_id stream) recipient
      start_time min_id 0 in
  let* rid'' := getitem ev "stream_recipient_id" in
  logger_info "Marked %s messages as read for all users, stream_recipient_id %s"
    [AInt total_messages; AVal rid''];;
  ret Fallthrough.

(** ** clear_push_device_tokens: the retry policy *)

Definition is_retry_later (e : exn) : bool :=
  bool_decide (e = PushNotificationBouncerRetryLaterError).

(** The terminal-failure handler the branch hands to [retry_event]. *)
Definition failure_processor (ev : event) : M unit :=
  let* uid := getitem ev "user_profile_id" in
  emit (Log module_logger WARNING
          "Maximum retries exceeded for trigger:%s event:clear_push_device_tokens"
          [AVal uid]).

Definition clear_push_device_tokens_branch (ev : event) : M flow :=
  let* uid := getitem ev "user_profile_id" in
  logger_info "Clearing push device tokens for user_profile_id %s" [AVal uid];;
  try_except
    (let* uid := getitem ev "user_profile_id" in
     call fn_clear_push_device_tokens [AVal uid]
       (λ s, clear_push_device_tokens C s uid))
    is_retry_later
    (retry_event queue_name ev failure_processor);;
  ret Fallthrough.

(** ** realm_export: the export state machine *)

Definition export_complete_msgid : string :=
  "Your data export is complete. [View and download exports]({export_settings_link}).".

(** What the DateTimeField of the model makes of the value it is given
    when the row is saved: a string is parsed, and refused with
    ValidationError when it is no date; a number or a list is handed to
    the parser, which raises TypeError; None reaches the table, whose
    column is not nullable. *)
Definition datetime_field (v : value) : M unit :=
  match v with
  | VStr t =>
      if datetime_valid C t then ret tt else raise (OtherException "ValidationError")
  | VNull => raise (OtherException "IntegrityError")
  | VInt _ | VList _ => raise TypeError
  end.

(** [RealmExport.objects.create(realm=..., type=EXPORT_PUBLIC,
    acting_user=..., status=REQUESTED, date_requested=time)] *)
Definition create_export_row (realm : Realm) (user_profile : UserProfile)
    (time : value) : M RealmExport :=
  datetime_field time;;
  let* s := get_store in
  let export_row :=
    {| export_id := next_id (exports s); export_realm := realm;
       export_kind := EXPORT_PUBLIC; acting_user := user_profile;
       status := REQUESTED; date_requested := time;
       date_failed := None |} in
  modify_store (set_exports <[export_id export_row := export_row]>);;
  ret export_row.

(** The row the event refers to, and the legacy audit-log entry (by its
    id) when the event predates the RealmExport model. *)
Definition load_export_row (ev : event) (realm : Realm) (user_profile : UserProfile)
    : M (RealmExport * option Z) :=
  if bool_decide (is_Some (ev !! "realm_export_id")) then
    let* v := getitem ev "realm_export_id" in
    let* export_row := objects_get "RealmExport" exports v in
    ret (export_row, None)
  else
    let* v := getitem ev "id" in
    let* export_event := objects_get "RealmAuditLog" auditlogs v in
    let* aid := as_int v in
    match extra_data export_event !! "export_row_id" with
    | Some VNull | None =>
        let* time := getitem ev "time" in
        let* export_row := create_export_row realm user_profile time in
        modify_store (set_auditlogs
          <[aid := {| extra_data := {["export_row_id" := VInt (export_id export_row)]} |}]>);;
        ret (export_row, Some aid)
    | Some rid =>
        let* export_row := objects_get "RealmExport" exports rid in
        ret (export_row, Some aid)
    end.

(** Lines 127 to 150: the working directory, the initiating user and
    the status record. *)
Definition realm_export_load (ev : event)
    : M (string * UserProfile * (RealmExport * option Z)) :=
  let* output_dir :=
    call fn_mkdtemp [AStr "zulip-export-"] (λ s, mkdtemp C s "zulip-export-") in
  let* uid := getitem ev "user_profile_id" in
  let* user_profile :=
    call fn_get_user_profile_by_id [AVal uid] (λ s, get_user_profile_by_id C s uid) in
  let* loaded := load_export_row ev (up_realm user_profile) user_profile in
  ret (output_dir, user_profile, loaded).

(** Lines 152 to 161: the record has left REQUESTED already. *)
Definition realm_export_redelivered (realm : Realm) (export_row : RealmExport) : M flow :=
  emit (Log module_logger ERROR
          "Marking export for realm %s as failed due to retry -- possible OOM during export?"
          [AStr (string_id realm)]);;
  let* now := timezone_now in
  modify_store (set_exports (alter (set_failed now) (export_id export_row)));;
  emit (NotifyRealmExport realm);;
  ret Return.

(** Lines 163 to 211: the export and what follows it. *)
Definition realm_export_run (start : Q) (output_dir : string)
    (user_profile : UserProfile) (export_row : RealmExport)
    (export_event : option Z) : M flow :=
  let realm := up_realm user_profile in
  logger_info "Starting realm export for realm %s into %s, initiated by user_profile_id %s"
    [AStr (string_id realm); AStr output_dir; AInt (up_id user_profile)];;
  let threads := if threaded C then 1 else 6 in
  let* fl :=
    try_except
      (call fn_export_realm_wrapper
         [AInt (export_id export_row); AStr output_dir; AInt threads]
         (λ s, export_realm_wrapper C s export_row output_dir threads true);;
       ret Fallthrough)
      is_Exception
      (let* now := time_time in
       emit (Log root_logger EXCEPTION "Data export for %s failed after %s"
               [AStr (string_id realm); ATime (now - start)%Q]);;
       emit (NotifyRealmExport realm);;
       ret Return) in
  match fl with
  | Return => ret Return
  | Fallthrough =>
      match export_event with
      | Some aid => modify_store (set_auditlogs (delete aid))
      | None => ret tt
      end;;
      let content :=
        str_format C (translate C (default_language user_profile) export_complete_msgid)
          "/#organization/data-exports-admin" in
      let* bot :=
        call fn_get_system_bot [AStr (NOTIFICATION_BOT C); AInt (realm_id realm)]
          (λ s, get_system_bot C s (NOTIFICATION_BOT C) (realm_id realm)) in
      emit (SendPrivateMessage bot user_profile content);;
      emit (NotifyRealmExport realm);;
      let* now := time_time in
      emit (Log root_logger INFO "Completed data export for %s in %s"
              [AStr (string_id realm); ATime (now - start)%Q]);;
      ret Fallthrough
  end.

Definition realm_export (start : Q) (ev : event) : M flow :=
  let* l := realm_export_load ev in
  let output_dir := l.1.1 in
  let user_profile := l.1.2 in
  let export_row := l.2.1 in
  let export_event := l.2.2 in
  if bool_decide (status export_row ≠ REQUESTED)
  then realm_export_redelivered (up_realm user_profile) export_row
  else realm_export_run start output_dir user_profile export_row export_event.

(** ** The remaining branches *)

Definition reupload_realm_emoji (ev : event) : M flow :=
  let* rid := getitem ev "realm_id" in
  let* realm := objects_get "Realm" realms rid in
  logger_info "Processing reupload_realm_emoji event for realm %s" [AInt (realm_id realm)];;
  call fn_handle_reupload_emojis_event [AInt (realm_id realm)]
    (λ s, handle_reupload_emojis_event C s realm);;
  ret Fallthrough.

Definition soft_reactivate (ev : event) : M flow :=
  let* uid := getitem ev "user_profile_id" in
  logger_info "Starting soft reactivation for user_profile_id %s" [AVal uid];;
  let* uid := getitem ev "user_profile_id" in
  let* user_profile :=
    call fn_get_user_profile_by_id [AVal uid] (λ s, get_user_profile_by_id C s uid) in
  call fn_reactivate_user_if_soft_deactivated [AInt (up_id user_profile)]
    (λ s, reactivate_user_if_soft_deactivated C s user_profile);;
  ret Fallthrough.

Definition push_bouncer_update_for_realm (ev : event) : M flow :=
  let* realm_id := getitem ev "realm_id" in
  logger_info "Updating push bouncer with metadata on behalf of realm %s" [AVal realm_id];;
  call fn_send_server_data_to_push_bouncer []
    (λ s, send_server_data_to_push_bouncer C s false);;
  ret Fallthrough.

(** ** The dispatcher *)

(** [event["type"] == name] *)
Definition type_is (ev : event) (name : string) : M bool :=
  let* ty := getitem ev "type" in
  ret (bool_decide (ty = VStr name)).

Definition dispatch (start : Q) (ev : event) : M flow :=
  let* b := type_is ev "mark_stream_messages_as_read" in
  if b : bool then mark_stream_messages_as_read ev else
  let* b := type_is ev "mark_stream_messages_as_read_for_everyone" in
  if b : bool then mark_stream_messages_as_read_for_everyone ev else
  let* b := type_is ev "clear_push_device_tokens" in
  if b : bool then clear_push_device_tokens_branch ev else
  let* b := type_is ev "realm_export" in
  if b : bool then realm_export start ev else
  let* b := type_is ev "reupload_realm_emoji" in
  if b : bool then reupload_realm_emoji ev else
  let* b := type_is ev "soft_reactivate" in
  if b : bool then soft_reactivate ev else
  let* b := type_is ev "push_bouncer_update_for_realm" in
  if b : bool then push_bouncer_update_for_realm ev else
  ret Fallthrough.

Definition completion_fmt : string := "deferred_work processed %s event (%dms)".

Definition consume (ev : event) : M unit :=
  let* start := time_time in
  let* fl := dispatch start ev in
  match fl with
  | Return => ret tt
  | Fallthrough =>
      let* end_ := time_time in
      let* ty := getitem ev "type" in
      logger_info completion_fmt [AVal ty; ATime ((end_ - start) * 1000)%Q]
  end.

(** ** The dispatch contract, as the specification words it

    One handler per type, looked up once in a table; a type without an
    entry has no handler.  [dispatch] above is the chain of comparisons
    of the source; the two are compared below. *)
Definition handlers : list (string * (Q → event → M flow)) :=
  [ ("mark_stream_messages_as_read", λ _, mark_stream_messages_as_read);
    ("mark_stream_messages_as_read_for_everyone",
      λ _, mark_stream_messages_as_read_for_everyone);
    ("clear_push_device_tokens", λ _, clear_push_device_tokens_branch);
    ("realm_export", realm_export);
    ("reupload_realm_emoji", λ _, reupload_realm_emoji);
    ("soft_reactivate", λ _, soft_reactivate);
    ("push_bouncer_update_for_realm", λ _, push_bouncer_update_for_realm) ].

Definition known_types : list string := handlers.*1.

Fixpoint lookup_handler (name : string) (table : list (string * (Q → event → M flow)))
    : option (Q → event → M flow) :=
  match table with
  | [] => None
  | (n, h) :: table' => if decide (n = name) then Some h else lookup_handler name table'
  end.

Definition handler_of (ty : value) : option (Q → event → M flow) :=
  match ty with
  | VStr name => lookup_handler name handlers
  | _ => None
  end.

Definition dispatch_by_table (start : Q) (ev : event) : M flow :=
  let* ty := getitem ev "type" in
  match handler_of ty with
  | Some h => h start ev
  | None => ret Fallthrough
  end.

(** ** The queue worker around the handler *)

(** Modelled from the spec: the delivery of the queue transport
    (zerver/worker/base, zerver/lib/queue).  One event at a time is taken
    from the head of the queue and handed to [consume], with the attempt
    counter of its envelope; an exception that escapes the handler is the
    framework's to deal with, and ends the run here. *)
Definition deliver (env : envelope) (rest : list envelope) (w : World) : World :=
  {| store := store w; queue := rest; trace := trace w;
     wall := wall w; wall_reads := wall_reads w;
     perf := perf w; perf_reads := perf_reads w;
     delivery_attempts := env_attempts env |}.

Fixpoint worker_loop (fuel : nat) (w : World) : result unit * World :=
  match queue w with
  | [] => (Ok tt, w)
  | env :: rest =>
      match fuel with
      | O => (OutOfFuel, w)
      | S fuel' =>
          match consume (env_event env) (deliver env rest w) with
          | (Ok _, w') => worker_loop fuel' w'
          | r => r
          end
      end
  end.

(** ** Reading the trace *)

Definition effects_since (w w' : World) : list effect :=
  drop (length (trace w)) (trace w').

Definition is_export_call (e : effect) : bool :=
  match e with
  | Call fn_export_realm_wrapper _ => true
  | _ => false
  end.

Definition is_observer_notification (e : effect) : bool :=
  match e with
  | NotifyRealmExport _ => true
  | _ => false
  end.

Definition is_actor_notification (e : effect) : bool :=
  match e with
  | SendPrivateMessage _ _ _ => true
  | _ => false
  end.

Definition is_completion_log (e : effect) : bool :=
  match e with
  | Log _ _ fmt _ => bool_decide (fmt = completion_fmt)
  | _ => false
  end.

Definition is_log (e : effect) : bool :=
  match e with
  | Log _ _ _ _ => true
  | _ => false
  end.

Definition is_call (e : effect) : bool :=
  match e with
  | Call _ _ => true
  | _ => false
  end.

Definition count (p : effect → bool) (t : list effect) : nat :=
  length (List.filter p t).

(** ** The statements of the export state machine *)

Definition is_terminal (st : export_status) : bool :=
  match st with
  | COMPLETED | FAILED => true
  | _ => false
  end.

(** Terminal states are absorbing: handling [ev] leaves the status of
    every record that is in a terminal state as it is. *)
Definition terminal_states_absorbing (ev : event) (w : World) : Prop :=
  ∀ id r, exports (store w) !! id = Some r → is_terminal (status r) = true →
          status <$> exports (store (consume ev w).2) !! id = Some (status r).

(** The record [id] is in FAILED, with a failure timestamp. *)
Definition failure_recorded (w : World) (id : Z) : Prop :=
  ∃ r t, exports (store w) !! id = Some r ∧ status r = FAILED
         ∧ date_failed r = Some t.


(** The effects of the export itself and of the notifications. *)
Definition quiet (e : effect) : Prop :=
  is_export_call e = false ∧ is_observer_notification e = false
  ∧ is_actor_notification e = false ∧ is_completion_log e = false.

Definition not_completion (e : effect) : Prop := is_completion_log e = false.

(** [emits P c]: whatever [c] does, the trace only grows, and by effects
    that satisfy [P]. *)
Definition emits {A} (P : effect → Prop) (c : M A) : Prop :=
  ∀ w, ∃ new, trace (c w).2 = trace w ++ new ∧ Forall P new.

(** ** The statements of the retry policy *)

Definition max_retries_fmt : string :=
  "Maximum retries exceeded for trigger:%s event:clear_push_device_tokens".

Definition max_retries_warning (uid : value) : effect :=
  Log module_logger WARNING max_retries_fmt [AVal uid].

Definition is_max_retries_warning (e : effect) : bool :=
  match e with
  | Log _ WARNING fmt _ => bool_decide (fmt = max_retries_fmt)
  | _ => false
  end.

Definition is_clear_call (e : effect) : bool :=
  match e with
  | Call fn_clear_push_device_tokens _ => true
  | _ => false
  end.

(** The envelope of a retry. *)
Definition retry_envelope (attempts : nat) (ev : event) : envelope :=
  {| env_queue := queue_name; env_attempts := attempts; env_event := ev |}.

(** The completion record of [consume]. *)
Definition completion_log (ty : value) (start end_ : Q) : effect :=
  Log module_logger INFO completion_fmt [AVal ty; ATime ((end_ - start) * 1000)%Q].

(** The world [consume] leaves when the branch has run to its end in [w]. *)
Definition completed (ty : value) (start : Q) (w : World) : World :=
  set_trace (λ t, t ++ [completion_log ty start (wall w (wall_reads w))]) (tick_wall w).

Definition has_completion_log (t : list effect) : Prop :=
  Exists (λ e, is_completion_log e = true) t.

(** The batches committed, in order. *)
Definition batches_of (t : list effect) : list (list Z) :=
  omap (λ e, match e with AtomicMarkRead ids => Some ids | _ => None end) t.

(** The events put on the queue, in order. *)
Definition published_of (t : list effect) : list event :=
  omap (λ e, match e with Published _ ev => Some ev | _ => None end) t.

(** The full target set of a stream, in ascending order of id. *)
Definition target (s : Store) (realm recipient : Z) : list Z :=
  merge_sort Z.le
    (map fst
       (filter (λ im : Z * Message,
                  msg_realm_id im.2 = realm ∧ msg_recipient_id im.2 = recipient)
          (map_to_list (messages s)))).

(** ** The batch loop on the list of ids still to do

    The ids the loop has still to select, in ascending order, determine
    its batches; [run_batches] is the loop of the source read on that
    list and on the readings of the performance counter.  It gives the
    batches committed, the cursor of the continuation when the budget
    stopped the loop, and the number of clock readings taken. *)
Fixpoint chunks (k : nat) (todo : list Z) : list (list Z) :=
  match k with
  | O => []
  | S k' => take batch_size todo :: chunks k' (drop batch_size todo)
  end.

Fixpoint run_batches (fuel : nat) (todo : list Z) (start_time : Q)
    (clock : nat → Q) (reads : nat) : list (list Z) * option Z * nat :=
  match fuel with
  | O => ([], None, reads)
  | S fuel' =>
      let msgs := take batch_size todo in
      if (length msgs <? batch_size)%nat then ([msgs], None, reads)
      else
        match last msgs with
        | None => ([msgs], None, reads)
        | Some min_id =>
            if over_budget start_time (clock reads)
            then ([msgs], Some min_id, S reads)
            else
              let r := run_batches fuel' (drop batch_size todo) start_time clock (S reads) in
              (msgs :: r.1.1, r.1.2, r.2)
        end
  end.

Definition continuation (ev : event) (cursor : Z) : event :=
  <["min_id" := VInt cursor]> ev.

(** The world after the batches of a run. *)
Definition after_batches (ev : event) (run : list (list Z) * option Z * nat)
    (w : World) : World :=
  {| store :=
       set_usermessages
         (λ ums, foldl (λ u b, map (update_read b) u) ums run.1.1) (store w);
     queue :=
       queue w ++ match run.1.2 with
                  | Some c => [{| env_queue := "deferred_work"; env_attempts := 0;
                                  env_event := continuation ev c |}]
                  | None => []
                  end;
     trace :=
       trace w ++ (AtomicMarkRead <$> run.1.1)
       ++ match run.1.2 with
          | Some c => [Published "deferred_work" (continuation ev c)]
          | None => []
          end;
     wall := wall w; wall_reads := wall_reads w;
     perf := perf w; perf_reads := run.2;
     delivery_attempts := delivery_attempts w |}.

(** The cursor an event starts from: [event.get("min_id", 0)]. *)
Definition start_cursor (ev : event) : value := default (VInt 0) (ev !! "min_id").

(** The cursors of the events put on the queue. *)
Definition published_cursors (t : list effect) : list Z :=
  omap (λ ev : event, match ev !! "min_id" with Some (VInt c) => Some c | _ => None end)
    (published_of t).

(** ** One invocation on a mark_stream_messages_as_read_for_everyone event *)

Definition everyone_type : value := VStr "mark_stream_messages_as_read_for_everyone".

(** The run of the loop, and the world the invocation leaves. *)
Definition everyone_run (ev : event) (w : World) (stream : Stream) (rid c0 : Z)
    : list (list Z) * option Z * nat :=
  run_batches (S (size (messages (store w))))
    (filter (λ i, c0 < i) (target (store w) (stream_realm_id stream) rid))
    (perf w (perf_reads w)) (perf w) (S (perf_reads w)).

Definition everyone_world (ev : event) (w : World) (stream : Stream) (rid c0 : Z) : World :=
  let run := everyone_run ev w stream rid c0 in
  completed everyone_type (wall w (wall_reads w))
    (set_trace
       (λ t, t ++ [Log module_logger INFO
                     "Marked %s messages as read for all users, stream_recipient_id %s"
                     [AInt (0 + Z.of_nat (length (concat run.1.1))); AVal (VInt rid)]])
       (after_batches ev run
          (tick_perf
             (set_trace
                (λ t, t ++ [Log module_logger INFO
                              "Marking messages as read for all users, stream_recipient_id %s"
                              [AVal (VInt rid)]])
                (tick_wall w))))).

(** ** The statements of the batch cursor *)

(** The batches of [new] are the ids of [T] beyond [c0], cut in batches
    of [batch_size], all full but the last, and the cursors of the
    continuation events go up from [c0]. *)
Definition covers (c0 : Z) (T : list Z) (new : list effect) : Prop :=
  let todo := filter (λ i, c0 < i) T in
  let bs := batches_of new in
  bs = chunks (length bs) todo
  ∧ bs ≠ []
  ∧ Forall (λ b, length b = batch_size) (take (length bs - 1) bs)
  ∧ concat bs = todo
  ∧ StronglySorted Z.lt (c0 :: published_cursors new).

(** The cursor in force when batch [i] is selected: the starting cursor,
    or the last id of the batches before. *)
Definition cursor_at (c0 : Z) (bs : list (list Z)) (i : nat) : Z :=
  default c0 (last (concat (take i bs))).

(** The values the cursor takes: the starting cursor, then the last id
    of every full batch. *)
Definition cursor_values (c0 : Z) (bs : list (list Z)) : list Z :=
  c0 :: omap last (filter (λ b, length b = batch_size) bs).

(** ** Further statements *)

(** [c] leaves the queue as it is. *)
Definition keeps_queue {A} (c : M A) : Prop := ∀ w, queue (c w).2 = queue w.

(** [c] does not run out of fuel. *)
Definition never_out_of_fuel {A} (c : M A) : Prop := ∀ w, (c w).1 ≠ OutOfFuel.

Definition mark_call (up : UserProfile) (r : Z) : effect :=
  Call fn_do_mark_stream_messages_as_read [AInt (up_id up); AVal (VInt r)].

Definition is_mark_call (e : effect) : bool :=
  match e with
  | Call fn_do_mark_stream_messages_as_read _ => true
  | _ => false
  end.

(** The flag helpers of UserMessage agree: the read flag is one bit, and a
    row is unread when that bit is absent from its flags. *)
Definition flags_consistent : Prop :=
  (∃ k, 0 ≤ k ∧ flags_read C = 2 ^ k)
  ∧ ∀ um, where_unread C um = (Z.land (um_flags um) (flags_read C) =? 0).

Definition has_read_flag (um : UserMessage) : Prop :=
  Z.land (um_flags um) (flags_read C) = flags_read C.

(** From [s] to [s'], the unread rows of the messages [ids] have got the
    read flag or-ed into their flags; the other rows and the other tables
    are as they were. *)
Definition marked_read (ids : list Z) (s s' : Store) : Prop :=
  Forall2
    (λ um um',
       um_user_profile_id um' = um_user_profile_id um
       ∧ um_message_id um' = um_message_id um
       ∧ um_flags um'
         = if bool_decide (um_message_id um ∈ ids) && where_unread C um
           then Z.lor (um_flags um) (flags_read C)
           else um_flags um)
    (usermessages s) (usermessages s')
  ∧ ext s' = ext s
  ∧ messages s' = messages s
  ∧ streams s' = streams s
  ∧ realms s' = realms s
  ∧ exports s' = exports s
  ∧ auditlogs s' = auditlogs s.

Definition marking_log (rid : Z) : effect :=
  Log module_logger INFO
    "Marking messages as read for all users, stream_recipient_id %s" [AVal (VInt rid)].

Definition marked_log (n : nat) (rid : Z) : effect :=
  Log module_logger INFO
    "Marked %s messages as read for all users, stream_recipient_id %s"
    [AInt (Z.of_nat n); AVal (VInt rid)].

(** The direct message of a finished export. *)
Definition export_content (up : UserProfile) : string :=
  str_format C (translate C (default_language up) export_complete_msgid)
    "/#organization/data-exports-admin".

Definition starting_log (up : UserProfile) (dir : string) : effect :=
  Log module_logger INFO
    "Starting realm export for realm %s into %s, initiated by user_profile_id %s"
    [AStr (string_id (up_realm up)); AStr dir; AInt (up_id up)].

Definition export_call (row : RealmExport) (dir : string) : effect :=
  Call fn_export_realm_wrapper
    [AInt (export_id row); AStr dir; AInt (if threaded C then 1 else 6)].

(** The store the bot lookup sees: the legacy entry, if any, is deleted. *)
Definition without_legacy_entry (oe : option Z) (s : Store) : Store :=
  match oe with
  | Some aid => set_auditlogs (delete aid) s
  | None => s
  end.

End Worker.

(** * Concrete instances

    A small installation on which the statements below are evaluated. *)
Module Examples.

Definition realm1 : Realm := {| realm_id := 1; string_id := "zulip" |}.
Definition user1 : UserProfile :=
  {| up_id := 7; up_realm := realm1; default_language := "en" |}.
Definition bot1 : UserProfile :=
  {| up_id := 2; up_realm := realm1; default_language := "en" |}.

Definition collab (export_result clear_result : outcome unit) : @Collaborators unit :=
  {| threaded := false;
     NOTIFICATION_BOT := "notification-bot@zulip.com";
     flags_read := 1;
     where_unread := λ um, Z.land (um_flags um) 1 =? 0;
     translate := λ _ msgid, msgid;
     str_format := λ template _, template;
     get_user_profile_by_id := λ s v,
       (s, match v with VInt 7 => Returns user1 | _ => Raises (DoesNotExist "UserProfile") end);
     do_mark_stream_messages_as_read := λ s _ _, (s, Returns 0);
     clear_push_device_tokens := λ s _, (s, clear_result);
     mkdtemp := λ s prefix, (s, Returns (prefix +:+ "abc"));
     export_realm_wrapper := λ s _ _ _ _, (s, export_result);
     get_system_bot := λ s _ _, (s, Returns bot1);
     handle_reupload_emojis_event := λ s _, (s, Returns tt);
     reactivate_user_if_soft_deactivated := λ s _, (s, Returns tt);
     send_server_data_to_push_bouncer := λ s _, (s, Returns tt);
     datetime_valid := λ t, bool_decide (String.length t = 20%nat) |}.

Definition export_row1 (st : export_status) : RealmExport :=
  {| export_id := 1; export_realm := realm1; export_kind := EXPORT_PUBLIC;
     acting_user := user1; status := st; date_requested := VInt 1700000000;
     date_failed := None |}.

Definition stream_messages (n : nat) : gmap Z Message :=
  list_to_map ((λ i : nat, (Z.of_nat i, {| msg_realm_id := 1; msg_recipient_id := 9 |}))
                 <$> seq 1 n).

Definition store1 (st : export_status) (n : nat) : @Store unit :=
  {| ext := tt;
     messages := stream_messages n;
     usermessages :=
       [ {| um_user_profile_id := 7; um_message_id := 1; um_flags := 0 |};
         {| um_user_profile_id := 7; um_message_id := 2; um_flags := 1 |} ];
     streams := {[ 9 := {| stream_realm_id := 1 |} ]};
     realms := {[ 1 := realm1 ]};
     exports := {[ 1 := export_row1 st ]};
     auditlogs := ∅ |}.

Definition world1 (st : export_status) (n : nat) (perf : nat → Q) : @World unit :=
  {| store := store1 st n; queue := []; trace := [];
     wall := λ n, inject_Z (Z.of_nat n); wall_reads := 0;
     perf := perf; perf_reads := 0;
     delivery_attempts := 0 |}.

Definition quiet_clock : nat → Q := λ _, 0%Q.

Definition export_event : event :=
  {[ "type" := VStr "realm_export"; "user_profile_id" := VInt 7;
     "realm_export_id" := VInt 1 ]}.

Definition everyone_event : event :=
  {[ "type" := VStr "mark_stream_messages_as_read_for_everyone";
     "stream_recipient_id" := VInt 9 ]}.

Definition clear_event : event :=
  {[ "type" := VStr "clear_push_device_tokens"; "user_profile_id" := VInt 7 ]}.

Definition stream1 : Stream := {| stream_realm_id := 1 |}.

(** A performance counter that is within the budget after the first
    batch and beyond it after the second. *)
Definition two_batch_clock : nat → Q :=
  λ n, match n with
       | O => 0%Q
       | S O => 10%Q
       | _ => 31%Q
       end.

Definition everyone_envelope : envelope :=
  {| env_queue := "deferred_work"; env_attempts := 0; env_event := everyone_event |}.

Definition unknown_event : event := {[ "type" := VStr "send_confirmation_email" ]}.

(** An installation whose marking fails for recipient 11 and whose
    bouncer is not reachable. *)
Definition collab_failing : @Collaborators unit :=
  {| threaded := false;
     NOTIFICATION_BOT := "notification-bot@zulip.com";
     flags_read := 1;
     where_unread := λ um, Z.land (um_flags um) 1 =? 0;
     translate := λ _ msgid, msgid;
     str_format := λ template _, template;
     get_user_profile_by_id := λ s v,
       (s, match v with VInt 7 => Returns user1 | _ => Raises (DoesNotExist "UserProfile") end);
     do_mark_stream_messages_as_read := λ s _ v,
       (s, match v with
           | VInt 11 => Raises (OtherException "OperationalError")
           | _ => Returns 3
           end);
     clear_push_device_tokens := λ s _, (s, Returns tt);
     mkdtemp := λ s prefix, (s, Returns (prefix +:+ "abc"));
     export_realm_wrapper := λ s _ _ _ _, (s, Returns tt);
     get_system_bot := λ s _ _, (s, Returns bot1);
     handle_reupload_emojis_event := λ s _, (s, Returns tt);
     reactivate_user_if_soft_deactivated := λ s _, (s, Returns tt);
     send_server_data_to_push_bouncer := λ s _,
       (s, Raises PushNotificationBouncerRetryLaterError);
     datetime_valid := λ t, bool_decide (String.length t = 20%nat) |}.

(** An event from before the RealmExport model, and a world with its
    audit-log entry. *)
Definition legacy_event : event :=
  {[ "type" := VStr "realm_export"; "user_profile_id" := VInt 7;
     "id" := VInt 5; "time" := VStr "2023-04-05T06:07:08Z" ]}.

Definition legacy_log : RealmAuditLog := {| extra_data := ∅ |}.

Definition legacy_world : @World unit :=
  set_store (set_auditlogs (λ _, {[ 5 := legacy_log ]})) (world1 REQUESTED 0 quiet_clock).

Definition legacy_row : RealmExport :=
  {| export_id := 2; export_realm := realm1; export_kind := EXPORT_PUBLIC;
     acting_user := user1; status := REQUESTED;
     date_requested := VStr "2023-04-05T06:07:08Z"; date_failed := None |}.

Definition missing_export_event : event :=
  {[ "type" := VStr "realm_export"; "user_profile_id" := VInt 7;
     "realm_export_id" := VInt 5 ]}.

Definition missing_stream_event : event :=
  {[ "type" := VStr "mark_stream_messages_as_read_for_everyone";
     "stream_recipient_id" := VInt 10 ]}.

Definition mark_event : event :=
  {[ "type" := VStr "mark_stream_messages_as_read"; "user_profile_id" := VInt 7;
     "stream_recipient_ids" := VList [9; 11; 12] ]}.

Definition bouncer_event : event :=
  {[ "type" := VStr "push_bouncer_update_for_realm"; "realm_id" := VInt 1 ]}.

Definition reactivate_event (uid : Z) : event :=
  {[ "type" := VStr "soft_reactivate"; "user_profile_id" := VInt uid ]}.

Definition emoji_event : event :=
  {[ "type" := VStr "reupload_realm_emoji"; "realm_id" := VInt 1 ]}.

End Examples.

(** * Properties *)

Section Properties.

Context {Ext : Type}.
Variable C : @Collaborators Ext.
Variable MAX_REQUEST_RETRIES : nat.

Abbreviation M := (@M Ext).
Abbreviation World := (@World Ext).
Abbreviation Store := (@Store Ext).
Abbreviation emits := (@emits Ext _).

(** ** What a computation adds to the trace *)

Lemma emits_silent {A} (P : effect → Prop) (c : M A) :
  (∀ w, trace (c w).2 = trace w) → emits P c.
Proof. intros H w. exists []. rewrite H, app_nil_r. auto. Qed.

Lemma emits_ret {A} P (a : A) : emits P (ret a : M A).
Proof. by apply emits_silent. Qed.

Lemma emits_raise {A} P e : emits P (raise e : M A).
Proof. by apply emits_silent. Qed.

Lemma emits_out_of_fuel {A} P : emits P (out_of_fuel : M A).
Proof. by apply emits_silent. Qed.

Lemma emits_get_store P : emits P (get_store : M Store).
Proof. by apply emits_silent. Qed.

Lemma emits_modify_store P f : emits P (modify_store f : M unit).
Proof. by apply emits_silent. Qed.

Lemma emits_time_time P : emits P (time_time : M Q).
Proof. by apply emits_silent. Qed.

Lemma emits_perf_counter P : emits P (perf_counter : M Q).
Proof. by apply emits_silent. Qed.

Lemma emits_emit (P : effect → Prop) e : P e → emits P (emit e : M unit).
Proof. intros H w. exists [e]. simpl. auto. Qed.

Lemma emits_call {A} (P : effect → Prop) f args (op : Store → Store * outcome A) :
  P (Call f args) → emits P (call f args op).
Proof.
  intros H w. exists [Call f args]. split; [|auto].
  unfold call. simpl. by destruct (op _) as [s' [a|e]].
Qed.

Lemma emits_bind {A B} P (c : M A) (k : A → M B) :
  emits P c → (∀ a, emits P (k a)) → emits P (bind c k).
Proof.
  intros Hc Hk w. unfold bind.
  destruct (Hc w) as (n1 & E1 & F1).
  destruct (c w) as [[a| e |] w1]; simpl in *; [|by eauto..].
  destruct (Hk a w1) as (n2 & E2 & F2).
  exists (n1 ++ n2). rewrite E2, E1, app_assoc. split; [done|].
  by apply Forall_app.
Qed.

Lemma emits_try_except {A} P (c : M A) class handler :
  emits P c → emits P handler → emits P (try_except c class handler).
Proof.
  intros Hc Hh w. unfold try_except.
  destruct (Hc w) as (n1 & E1 & F1).
  destruct (c w) as [[a| e |] w1]; simpl in *; [by eauto| |by eauto].
  destruct (class e); simpl; [|by eauto].
  destruct (Hh w1) as (n2 & E2 & F2).
  exists (n1 ++ n2). rewrite E2, E1, app_assoc. split; [done|].
  by apply Forall_app.
Qed.

Lemma emits_getitem P ev k : emits P (getitem ev k).
Proof. unfold getitem. destruct (ev !! k); [apply emits_ret | apply emits_raise]. Qed.

Lemma emits_as_int P v : emits P (as_int v).
Proof. destruct v; first [apply emits_ret | apply emits_raise]. Qed.

Lemma emits_objects_get {A} P model (table : Store → gmap Z A) v :
  emits P (objects_get model table v).
Proof.
  unfold objects_get. apply emits_bind; [apply emits_as_int|]. intros k.
  apply emits_bind; [apply emits_get_store|]. intros s.
  destruct (table s !! k); [apply emits_ret | apply emits_raise].
Qed.

Lemma emits_iterate P v : emits P (iterate v).
Proof. destruct v; first [apply emits_ret | apply emits_raise]. Qed.

Lemma emits_type_is P ev name : emits P (type_is ev name).
Proof.
  unfold type_is. apply emits_bind; [apply emits_getitem|]. intros. apply emits_ret.
Qed.

Lemma emits_for_each {A} P (l : list A) body :
  (∀ x, emits P (body x)) → emits P (for_each l body).
Proof.
  intros H. induction l as [|x l IH]; simpl; [apply emits_ret|].
  apply emits_bind; auto.
Qed.

Lemma emits_publish (P : effect → Prop) q ev :
  P (Published q ev) → emits P (queue_json_publish_rollback_unsafe q ev).
Proof.
  intros H. unfold queue_json_publish_rollback_unsafe.
  apply emits_bind; [by apply emits_emit|]. intros _. by apply emits_silent.
Qed.

Lemma emits_weaken {A} (P P' : effect → Prop) (c : M A) :
  (∀ e, P e → P' e) → emits P c → emits P' c.
Proof.
  intros H Hc w. destruct (Hc w) as (n & E & F). exists n. split; [done|].
  eapply Forall_impl; eauto.
Qed.

(** The steps shared by the proofs below. *)
Ltac emits_step :=
  lazymatch goal with
  | |- emits _ (mark_loop _ _ _ _ _ _ _ _) => fail
  | |- emits _ (retry_event _ _ _ _) => fail
  | _ => idtac
  end;
  first
    [ apply emits_ret | apply emits_raise | apply emits_out_of_fuel
    | apply emits_get_store | apply emits_modify_store
    | apply emits_time_time | apply emits_perf_counter
    | apply emits_getitem | apply emits_as_int | apply emits_objects_get
    | apply emits_iterate | apply emits_type_is
    | apply emits_bind; [|intros ?]
    | apply emits_try_except
    | apply emits_for_each; intros ?
    | apply emits_emit | apply emits_call | apply emits_publish ].

Ltac emits_auto := repeat emits_step.

Ltac emits_solve := emits_auto; try reflexivity.

Lemma emits_failure_processor ev :
  emits not_completion (failure_processor ev : M unit).
Proof. unfold failure_processor. emits_solve. Qed.

Lemma emits_retry_event q ev :
  emits not_completion (retry_event MAX_REQUEST_RETRIES q ev failure_processor).
Proof.
  intros w. unfold retry_event.
  destruct (_ <=? _)%nat.
  - apply emits_failure_processor.
  - apply (emits_bind not_completion); [by apply emits_emit|].
    intros _. by apply emits_silent.
Qed.

Lemma emits_mark_loop fuel ev realm recipient start_time min_id total :
  emits not_completion (mark_loop C fuel ev realm recipient start_time min_id total).
Proof.
  revert min_id total. induction fuel as [|fuel IH]; intros min_id total; simpl.
  - emits_solve.
  - emits_auto; try reflexivity.
    destruct (_ <? _)%nat; [emits_solve|].
    destruct (last _); [|emits_solve].
    emits_auto. destruct (over_budget _ _); [emits_solve | apply IH].
Qed.

Lemma emits_realm_export_load (P : effect → Prop) ev :
  (∀ args, P (Call fn_mkdtemp args)) →
  (∀ args, P (Call fn_get_user_profile_by_id args)) →
  emits P (realm_export_load C ev).
Proof.
  intros H1 H2. unfold realm_export_load, load_export_row.
  emits_auto; [apply H1 | apply H2 |].
  case_bool_decide; emits_auto.
  assert (Hfield : ∀ time, emits P (datetime_field C time)).
  { intros time. unfold datetime_field.
    destruct time as [n|t|l|]; [|destruct (datetime_valid C t)|..]; emits_auto. }
  destruct (extra_data _ !! _) as [[]|]; emits_auto; apply Hfield.
Qed.

Lemma emits_realm_export_run (P : effect → Prop) start dir up row oe :
  (∀ lg lv fmt args, fmt ≠ completion_fmt → P (Log lg lv fmt args)) →
  (∀ f args, P (Call f args)) →
  (∀ r, P (NotifyRealmExport r)) →
  (∀ a b c, P (SendPrivateMessage a b c)) →
  emits P (realm_export_run C start dir up row oe).
Proof.
  intros HL HC HN HS. unfold realm_export_run.
  apply emits_bind; [apply emits_emit; by apply HL|]. intros _.
  apply emits_bind.
  - apply emits_try_except; emits_auto; auto; by apply HL.
  - intros [|]; [|apply emits_ret].
    apply emits_bind; [destruct oe; emits_auto|]. intros _.
    emits_auto; auto; by apply HL.
Qed.

Lemma emits_dispatch start ev :
  emits not_completion (dispatch C MAX_REQUEST_RETRIES start ev).
Proof.
  unfold dispatch.
  repeat (apply emits_bind; [apply emits_type_is|]; intros [|]); [..|apply emits_ret].
  - unfold mark_stream_messages_as_read. emits_solve.
  - unfold mark_stream_messages_as_read_for_everyone.
    emits_auto; try reflexivity. apply emits_mark_loop.
  - unfold clear_push_device_tokens_branch.
    emits_auto; try reflexivity. apply emits_retry_event.
  - unfold realm_export.
    apply emits_bind; [apply emits_realm_export_load; by intros|]. intros l.
    case_bool_decide.
    + unfold realm_export_redelivered, timezone_now. emits_solve.
    + apply emits_realm_export_run; [|by intros..].
      intros ???? Hf. unfold not_completion. simpl. by apply bool_decide_eq_false.
  - unfold reupload_realm_emoji. emits_solve.
  - unfold soft_reactivate. emits_solve.
  - unfold push_bouncer_update_for_realm. emits_solve.
Qed.

Lemma effects_since_app (w w' : World) new :
  trace w' = trace w ++ new → effects_since w w' = new.
Proof. unfold effects_since. intros ->. by rewrite drop_app_length. Qed.

Lemma effects_since_app2 (w w1 w' : World) new rest :
  trace w1 = trace w ++ new → trace w' = trace w1 ++ rest →
  effects_since w w' = new ++ rest.
Proof.
  intros H1 H2. apply effects_since_app. by rewrite H2, H1, app_assoc.
Qed.

Lemma count_app p t1 t2 : count p (t1 ++ t2) = (count p t1 + count p t2)%nat.
Proof. unfold count. by rewrite List.filter_app, length_app. Qed.

Lemma count_none (p : effect → bool) t :
  Forall (λ e, p e = false) t → count p t = 0%nat.
Proof.
  unfold count. induction 1 as [|e t He _ IH]; simpl; [done|]. by rewrite He.
Qed.

(** ** The dispatcher *)

Ltac unknown_type :=
  repeat (rewrite bool_decide_eq_false_2 by congruence; simpl).

Lemma dispatch_table_eq start ev w :
  dispatch C MAX_REQUEST_RETRIES start ev w
  = dispatch_by_table C MAX_REQUEST_RETRIES start ev w.
Proof.
  unfold dispatch, dispatch_by_table, type_is, bind, getitem.
  destruct (ev !! "type") as [ty|] eqn:Hty; simpl; [|done].
  destruct ty as [n|s|l|]; simpl; [by unknown_type| |by unknown_type..].
  repeat (let Hs := fresh "Hs" in
          case_bool_decide as Hs;
          [ injection Hs as ->; reflexivity
          | simpl; rewrite decide_False by congruence ]).
  done.
Qed.

Lemma dispatch_routes start ev w ty :
  ev !! "type" = Some ty →
  dispatch C MAX_REQUEST_RETRIES start ev w
  = match handler_of C MAX_REQUEST_RETRIES ty with
    | Some h => h start ev w
    | None => (Ok Fallthrough, w)
    end.
Proof.
  intros Hty. rewrite dispatch_table_eq.
  unfold dispatch_by_table, bind, getitem. rewrite Hty. simpl.
  by destruct (handler_of _ _ ty).
Qed.

(** C9: every event that has a type is routed to the one handler the
    table gives for that type, and to nothing else; a type without a
    handler leaves the store and the queue alone and adds the completion
    record, a log entry, to the trace. *)
Theorem dispatch_one_handler start ev w ty :
  ev !! "type" = Some ty →
  NoDup (known_types C MAX_REQUEST_RETRIES) ∧
  match handler_of C MAX_REQUEST_RETRIES ty with
  | Some h => dispatch C MAX_REQUEST_RETRIES start ev w = h start ev w
  | None =>
      dispatch C MAX_REQUEST_RETRIES start ev w = (Ok Fallthrough, w) ∧
      consume C MAX_REQUEST_RETRIES ev w
      = (Ok tt,
         set_trace
           (λ t, t ++ [completion_log ty (wall w (wall_reads w))
                         (wall w (S (wall_reads w)))])
           (tick_wall (tick_wall w)))
  end.
Proof.
  intros Hty. split.
  { apply (bool_decide_unpack _). by vm_compute. }
  pose proof (dispatch_routes start ev w ty Hty) as Hd.
  pose proof (dispatch_routes (wall w (wall_reads w)) ev (tick_wall w) ty Hty) as Hd'.
  destruct (handler_of _ _ ty) as [h|] eqn:Hh; [done|].
  split; [done|].
  unfold consume, bind, time_time. rewrite Hd'.
  unfold getitem. simpl. by rewrite Hty.
Qed.

Lemma no_return_bind {A} (c : M A) (k : A → M flow) :
  (∀ a w w', k a w ≠ (Ok Return, w')) →
  ∀ w w', bind c k w ≠ (Ok Return, w').
Proof.
  intros Hk w w'. unfold bind. destruct (c w) as [[a|e|] w1]; [apply Hk|done..].
Qed.

Ltac no_return :=
  repeat (apply no_return_bind; intros ?); by intros ??.

(** The handler returns early on the failure paths of realm_export
    only. *)
Lemma dispatch_return_realm_export start ev w w' :
  dispatch C MAX_REQUEST_RETRIES start ev w = (Ok Return, w') →
  ev !! "type" = Some (VStr "realm_export").
Proof.
  intros H. destruct (ev !! "type") as [ty|] eqn:Hty.
  - destruct (decide (ty = VStr "realm_export")) as [->|Hne]; [done|].
    exfalso. revert H. unfold dispatch, type_is, bind at 1 2, getitem at 1.
    rewrite Hty. simpl.
    repeat (unfold bind at 1, getitem at 1; rewrite Hty; simpl;
            case_bool_decide; [try done; revert w w'|]).
    6: case_bool_decide; [revert w w'|done].
    + unfold mark_stream_messages_as_read. no_return.
    + unfold mark_stream_messages_as_read_for_everyone. no_return.
    + unfold clear_push_device_tokens_branch. no_return.
    + unfold reupload_realm_emoji. no_return.
    + unfold soft_reactivate. no_return.
    + unfold push_bouncer_update_for_realm. no_return.
  - revert H. unfold dispatch, type_is, bind at 1 2, getitem at 1.
    by rewrite Hty.
Qed.

(** C4, amended: when the branch of the event runs to its end, [consume]
    reads the clock once more and adds one completion record, with the
    type of the event and the time from entry to exit, as the last
    effect; it is the only completion record of the invocation. *)
Theorem consume_completion_log ev w w1 :
  dispatch C MAX_REQUEST_RETRIES (wall w (wall_reads w)) ev (tick_wall w)
  = (Ok Fallthrough, w1) →
  ∃ ty,
    ev !! "type" = Some ty ∧
    consume C MAX_REQUEST_RETRIES ev w
    = (Ok tt,
       set_trace
         (λ t, t ++ [completion_log ty (wall w (wall_reads w))
                       (wall w1 (wall_reads w1))])
         (tick_wall w1)) ∧
    count is_completion_log
      (effects_since w (consume C MAX_REQUEST_RETRIES ev w).2) = 1%nat.
Proof.
  intros Hd.
  assert (∃ ty, ev !! "type" = Some ty) as [ty Hty].
  { revert Hd. unfold dispatch, type_is, bind at 1 2, getitem.
    destruct (ev !! "type"); [eauto|done]. }
  exists ty. split; [done|].
  assert (Hc : consume C MAX_REQUEST_RETRIES ev w
               = (Ok tt,
                  set_trace
                    (λ t, t ++ [completion_log ty (wall w (wall_reads w))
                                  (wall w1 (wall_reads w1))])
                    (tick_wall w1))).
  { unfold consume, bind, time_time. rewrite Hd.
    unfold getitem. simpl. by rewrite Hty. }
  split; [done|]. rewrite Hc. simpl.
  destruct (emits_dispatch (wall w (wall_reads w)) ev (tick_wall w))
    as (new & Hnew & Hall).
  rewrite Hd in Hnew. simpl in Hnew.
  rewrite (effects_since_app w _ (new ++ [completion_log ty (wall w (wall_reads w))
                                            (wall w1 (wall_reads w1))])).
  - rewrite count_app, (count_none _ new) by done. reflexivity.
  - simpl. by rewrite Hnew, app_assoc.
Qed.

(** ** The export state machine *)

Lemma quiet_count (new : list effect) :
  Forall quiet new →
  count is_export_call new = 0%nat ∧ count is_observer_notification new = 0%nat
  ∧ count is_actor_notification new = 0%nat ∧ count is_completion_log new = 0%nat.
Proof.
  intros H. repeat split; apply count_none; eapply Forall_impl; eauto;
    intros e (?&?&?&?); done.
Qed.

Lemma realm_export_load_quiet ev w r w1 :
  realm_export_load C ev w = (r, w1) →
  ∃ new, trace w1 = trace w ++ new ∧ Forall quiet new.
Proof.
  intros H.
  destruct (emits_realm_export_load quiet ev) with (w := w) as (new & E & F);
    [done..|].
  rewrite H in E. eauto.
Qed.

Lemma consume_realm_export ev w :
  ev !! "type" = Some (VStr "realm_export") →
  consume C MAX_REQUEST_RETRIES ev w
  = match realm_export C (wall w (wall_reads w)) ev (tick_wall w) with
    | (Ok Return, w') => (Ok tt, w')
    | (Ok Fallthrough, w') =>
        (Ok tt,
         set_trace (λ t, t ++ [completion_log (VStr "realm_export")
                                 (wall w (wall_reads w)) (wall w' (wall_reads w'))])
           (tick_wall w'))
    | (Raise e, w') => (Raise e, w')
    | (OutOfFuel, w') => (OutOfFuel, w')
    end.
Proof.
  intros Hty.
  pose proof (dispatch_routes (wall w (wall_reads w)) ev (tick_wall w) _ Hty) as Hd.
  simpl in Hd. unfold consume, bind at 1, time_time at 1. unfold bind at 1.
  rewrite Hd.
  destruct (realm_export _ _ _ _) as [[[|]|e|] w']; try done.
  unfold bind, time_time, getitem. by rewrite Hty.
Qed.

(** The world a redelivered export is left in. *)
Lemma consume_redelivered ev w dir up row oe w1 :
  ev !! "type" = Some (VStr "realm_export") →
  realm_export_load C ev (tick_wall w) = (Ok (dir, up, (row, oe)), w1) →
  status row ≠ REQUESTED →
  consume C MAX_REQUEST_RETRIES ev w
  = (Ok tt, (realm_export_redelivered (up_realm up) row w1).2).
Proof.
  intros Hty Hload Hst. rewrite consume_realm_export by done.
  unfold realm_export, bind at 1. rewrite Hload. simpl.
  by rewrite bool_decide_eq_true_2.
Qed.

Lemma redelivered_world realm row (w1 : World) :
  let w' := (realm_export_redelivered realm row w1).2 in
  store w' = set_exports (alter (set_failed (wall w1 (wall_reads w1))) (export_id row))
               (store w1)
  ∧ queue w' = queue w1
  ∧ trace w'
    = trace w1
      ++ [Log module_logger ERROR
            "Marking export for realm %s as failed due to retry -- possible OOM during export?"
            [AStr (string_id realm)];
          NotifyRealmExport realm].
Proof. simpl. by rewrite <- app_assoc. Qed.

(** The world an export that raised is left in. *)
Lemma consume_export_raised ev w dir up row oe w1 s' e :
  ev !! "type" = Some (VStr "realm_export") →
  realm_export_load C ev (tick_wall w) = (Ok (dir, up, (row, oe)), w1) →
  status row = REQUESTED →
  export_realm_wrapper C (store w1) row dir (if threaded C then 1 else 6) true
  = (s', Raises e) →
  is_Exception e = true →
  ∃ w',
    consume C MAX_REQUEST_RETRIES ev w = (Ok tt, w')
    ∧ store w' = s'
    ∧ queue w' = queue w1
    ∧ trace w'
      = trace w1
        ++ [Log module_logger INFO
              "Starting realm export for realm %s into %s, initiated by user_profile_id %s"
              [AStr (string_id (up_realm up)); AStr dir; AInt (up_id up)];
            Call fn_export_realm_wrapper
              [AInt (export_id row); AStr dir; AInt (if threaded C then 1 else 6)];
            Log root_logger EXCEPTION "Data export for %s failed after %s"
              [AStr (string_id (up_realm up));
               ATime (wall w1 (wall_reads w1) - wall w (wall_reads w))%Q];
            NotifyRealmExport (up_realm up)].
Proof.
  intros Hty Hload Hst Hx He. rewrite consume_realm_export by done.
  unfold realm_export, bind at 1. rewrite Hload. simpl.
  rewrite bool_decide_eq_false_2 by (by intros ?).
  unfold realm_export_run, bind, try_except, call, logger_info, emit. simpl.
  rewrite Hx. simpl. rewrite He. simpl.
  eexists. split; [done|]. simpl. repeat split.
  by rewrite <- !app_assoc.
Qed.

(** C1, amended: a realm_export event whose record is COMPLETED or FAILED
    when it is loaded never reaches the export, leaves the record in
    FAILED with a new failure timestamp, and notifies the observers once.
    FAILED is kept; a COMPLETED record is moved to FAILED. *)
Theorem redelivered_export_marked_failed ev w dir up row oe w1 :
  ev !! "type" = Some (VStr "realm_export") →
  realm_export_load C ev (tick_wall w) = (Ok (dir, up, (row, oe)), w1) →
  exports (store w1) !! export_id row = Some row →
  is_terminal (status row) = true →
  let w' := (consume C MAX_REQUEST_RETRIES ev w).2 in
  (consume C MAX_REQUEST_RETRIES ev w).1 = Ok tt
  ∧ count is_export_call (effects_since w w') = 0%nat
  ∧ exports (store w') !! export_id row
    = Some (set_failed (wall w1 (wall_reads w1)) row)
  ∧ failure_recorded w' (export_id row)
  ∧ count is_observer_notification (effects_since w w') = 1%nat
  ∧ (status row = FAILED →
     status <$> exports (store w') !! export_id row = Some (status row)).
Proof.
  intros Hty Hload Hrow Hterm w'. subst w'.
  assert (Hst : status row ≠ REQUESTED) by (by destruct (status row)).
  rewrite (consume_redelivered _ _ _ _ _ _ _ Hty Hload Hst).
  destruct (redelivered_world (up_realm up) row w1) as (Hs & _ & Ht).
  cbv zeta in Hs, Ht.
  destruct (realm_export_load_quiet _ _ _ _ Hload) as (new & Hnew & Hq).
  simpl in Hnew.
  destruct (quiet_count _ Hq) as (Hx & Ho & _ & _).
  assert (Hlook : exports (store (realm_export_redelivered (up_realm up) row w1).2)
                    !! export_id row
                  = Some (set_failed (wall w1 (wall_reads w1)) row)).
  { rewrite Hs. simpl. by rewrite lookup_alter_eq, Hrow. }
  set (w' := (realm_export_redelivered (up_realm up) row w1).2) in *.
  assert (Heff : effects_since w w'
                 = new ++ [Log module_logger ERROR
                             "Marking export for realm %s as failed due to retry -- possible OOM during export?"
                             [AStr (string_id (up_realm up))];
                           NotifyRealmExport (up_realm up)]).
  { apply effects_since_app. rewrite Ht, Hnew. by rewrite <- app_assoc. }
  change ((Ok (), w').1) with (@Ok unit ()). change ((Ok (), w').2) with w'.
  split; [done|]. rewrite Heff, !count_app, Hx, Ho.
  split; [done|]. split; [done|].
  split; [by eexists _, _|].
  split; [done|].
  intros ->. by rewrite Hlook.
Qed.

(** C2, amended: when the export of a REQUESTED record raises an
    exception derived from Exception, the handler catches it, logs it
    with the time since entry, notifies the observers once and returns;
    it writes nothing itself, so that the store, and the status record in
    it, are as the export operation left them. *)
Theorem export_exception_caught ev w dir up row oe w1 s' e :
  ev !! "type" = Some (VStr "realm_export") →
  realm_export_load C ev (tick_wall w) = (Ok (dir, up, (row, oe)), w1) →
  status row = REQUESTED →
  export_realm_wrapper C (store w1) row dir (if threaded C then 1 else 6) true
  = (s', Raises e) →
  is_Exception e = true →
  ∃ w',
    consume C MAX_REQUEST_RETRIES ev w = (Ok tt, w')
    ∧ store w' = s'
    ∧ queue w' = queue w1
    ∧ trace w'
      = trace w1
        ++ [Log module_logger INFO
              "Starting realm export for realm %s into %s, initiated by user_profile_id %s"
              [AStr (string_id (up_realm up)); AStr dir; AInt (up_id up)];
            Call fn_export_realm_wrapper
              [AInt (export_id row); AStr dir; AInt (if threaded C then 1 else 6)];
            Log root_logger EXCEPTION "Data export for %s failed after %s"
              [AStr (string_id (up_realm up));
               ATime (wall w1 (wall_reads w1) - wall w (wall_reads w))%Q];
            NotifyRealmExport (up_realm up)]
    ∧ count is_observer_notification (effects_since w w') = 1%nat.
Proof.
  intros Hty Hload Hst Hx He.
  destruct (consume_export_raised _ _ _ _ _ _ _ _ _ Hty Hload Hst Hx He)
    as (w' & Hc & Hs & Hq & Ht).
  exists w'. repeat (split; [done|]).
  destruct (realm_export_load_quiet _ _ _ _ Hload) as (new & Hnew & Hqu).
  simpl in Hnew. destruct (quiet_count _ Hqu) as (_ & Ho & _ & _).
  rewrite (effects_since_app2 _ _ _ _ _ Hnew Ht).
  by rewrite !count_app, Ho.
Qed.


(** ** The retry policy *)

Lemma failure_processor_logs (ev : event) uid (w : World) :
  ev !! "user_profile_id" = Some uid →
  failure_processor ev w
  = (Ok tt, set_trace (λ t, t ++ [max_retries_warning uid]) w).
Proof. intros H. unfold failure_processor, bind, getitem. by rewrite H. Qed.

(** One delivery of a clear_push_device_tokens event. *)
Lemma consume_clear_tokens ev uid (w : World) :
  ev !! "type" = Some (VStr "clear_push_device_tokens") →
  ev !! "user_profile_id" = Some uid →
  let ty := VStr "clear_push_device_tokens" in
  let start := wall w (wall_reads w) in
  let w0 :=
    set_trace (λ t, t ++ [Call fn_clear_push_device_tokens [AVal uid]])
      (set_trace
         (λ t, t ++ [Log module_logger INFO
                       "Clearing push device tokens for user_profile_id %s" [AVal uid]])
         (tick_wall w)) in
  consume C MAX_REQUEST_RETRIES ev w
  = match clear_push_device_tokens C (store w) uid with
    | (s', Returns _) => (Ok tt, completed ty start (set_store (λ _, s') w0))
    | (s', Raises e) =>
        let w1 := set_store (λ _, s') w0 in
        if is_retry_later e then
          if (MAX_REQUEST_RETRIES <=? S (delivery_attempts w))%nat
          then (Ok tt, completed ty start
                         (set_trace (λ t, t ++ [max_retries_warning uid]) w1))
          else (Ok tt, completed ty start
                         (set_queue
                            (λ l, l ++ [retry_envelope (S (delivery_attempts w)) ev])
                            (set_trace (λ t, t ++ [Retried queue_name ev]) w1)))
        else (Raise e, w1)
    end.
Proof.
  intros Hty Huid ty start w0.
  pose proof (dispatch_routes start ev (tick_wall w) _ Hty) as Hd.
  simpl in Hd. unfold consume, bind at 1, time_time at 1. unfold bind at 1.
  fold start. rewrite Hd.
  unfold clear_push_device_tokens_branch, bind, getitem, try_except, call,
    logger_info, emit.
  rewrite Huid. simpl.
  destruct (clear_push_device_tokens C (store w) uid) as [s' [[]|e]]; simpl.
  - unfold getitem. by rewrite Hty.
  - destruct (is_retry_later e); [|done].
    unfold retry_event. simpl.
    destruct (_ <=? _)%nat.
    + rewrite (failure_processor_logs _ uid) by done. simpl.
      unfold getitem. by rewrite Hty.
    + unfold bind, emit. simpl. unfold getitem. by rewrite Hty.
Qed.

(** An event whose call fails transiently at every delivery: it is
    delivered until the attempts are exhausted, and no further. *)
Lemma retry_until_exhausted ev uid :
  ev !! "type" = Some (VStr "clear_push_device_tokens") →
  ev !! "user_profile_id" = Some uid →
  (∀ s, (clear_push_device_tokens C s uid).2
        = Raises PushNotificationBouncerRetryLaterError) →
  ∀ k a (w : World) fuel,
    (S a + k = MAX_REQUEST_RETRIES)%nat →
    queue w = [retry_envelope a ev] →
    (k < fuel)%nat →
    ∃ w' new,
      worker_loop C MAX_REQUEST_RETRIES fuel w = (Ok tt, w')
      ∧ queue w' = []
      ∧ trace w' = trace w ++ new
      ∧ count is_max_retries_warning new = 1%nat
      ∧ count is_clear_call new = S k.
Proof.
  intros Hty Huid Hfail k.
  induction k as [|k IH]; intros a w fuel Hk Hq Hfuel.
  - destruct fuel as [|fuel]; [lia|]. simpl. rewrite Hq.
    rewrite (consume_clear_tokens ev uid) by done. simpl.
    specialize (Hfail (store w)).
    destruct (clear_push_device_tokens C (store w) uid) as [s' r].
    simpl in Hfail. subst r. simpl.
    replace (MAX_REQUEST_RETRIES <=? S a)%nat with true
      by (symmetry; apply Nat.leb_le; lia).
    destruct fuel; simpl; eexists _, _.
    all: split; [done|]; split; [done|]; simpl.
    all: split; [by rewrite <- !app_assoc|done].
  - destruct fuel as [|fuel]; [lia|]. simpl. rewrite Hq.
    rewrite (consume_clear_tokens ev uid) by done. simpl.
    specialize (Hfail (store w)).
    destruct (clear_push_device_tokens C (store w) uid) as [s' r].
    simpl in Hfail. subst r. simpl.
    replace (MAX_REQUEST_RETRIES <=? S a)%nat with false
      by (symmetry; apply Nat.leb_gt; lia).
    edestruct (IH (S a)) with (fuel := fuel) as (w' & new & Hl & Hq' & Ht & Hw & Hc);
      [lia| |lia|]; [|rewrite Hl].
    { reflexivity. }
    eexists _, _. split; [done|]. split; [done|].
    split; [rewrite Ht; simpl; by rewrite <- !app_assoc|].
    unfold count in *. simpl. by rewrite Hw, Hc.
Qed.

(** C8: a clear_push_device_tokens event whose call raises.  The handler
    given to [retry_event] only logs and does not raise.  A transient
    failure is caught: below the maximum attempt count the same event is
    put back on the queue with its counter advanced and the handler is
    not invoked; at the maximum the handler is invoked once and nothing is
    put back.  Any other exception leaves [consume] as it was raised.
    An event that fails transiently at every delivery is delivered
    MAX_REQUEST_RETRIES times, and over them the handler is invoked
    once. *)
Theorem clear_tokens_retry_policy ev uid (w : World) s' e :
  ev !! "type" = Some (VStr "clear_push_device_tokens") →
  ev !! "user_profile_id" = Some uid →
  clear_push_device_tokens C (store w) uid = (s', Raises e) →
  let r := consume C MAX_REQUEST_RETRIES ev w in
  let new := effects_since w r.2 in
  (∀ w0 : World,
     failure_processor ev w0
     = (Ok tt, set_trace (λ t, t ++ [max_retries_warning uid]) w0))
  ∧ (if is_retry_later e then
       r.1 = Ok tt ∧ store r.2 = s'
       ∧ if (MAX_REQUEST_RETRIES <=? S (delivery_attempts w))%nat
         then queue r.2 = queue w ∧ count is_max_retries_warning new = 1%nat
         else queue r.2 = queue w ++ [retry_envelope (S (delivery_attempts w)) ev]
              ∧ count is_max_retries_warning new = 0%nat
     else r.1 = Raise e ∧ store r.2 = s' ∧ queue r.2 = queue w
          ∧ count is_max_retries_warning new = 0%nat)
  ∧ ((∀ s, (clear_push_device_tokens C s uid).2
           = Raises PushNotificationBouncerRetryLaterError) →
     (1 ≤ MAX_REQUEST_RETRIES)%nat →
     ∀ fuel (w0 : World),
       (MAX_REQUEST_RETRIES ≤ fuel)%nat →
       queue w0 = [retry_envelope 0 ev] →
       ∃ w' new',
         worker_loop C MAX_REQUEST_RETRIES fuel w0 = (Ok tt, w')
         ∧ queue w' = []
         ∧ trace w' = trace w0 ++ new'
         ∧ count is_max_retries_warning new' = 1%nat
         ∧ count is_clear_call new' = MAX_REQUEST_RETRIES).
Proof.
  intros Hty Huid Hx r new.
  split; [intros w0; by apply failure_processor_logs|].
  split.
  - subst new r. rewrite (consume_clear_tokens ev uid) by done.
    cbv zeta. rewrite Hx.
    destruct (is_retry_later e); [destruct (_ <=? _)%nat|]; simpl.
    all: unfold effects_since; simpl.
    all: rewrite <- ?app_assoc, drop_app_length; simpl.
    all: done.
  - intros Hfail Hmax fuel w0 Hfuel Hq.
    destruct (retry_until_exhausted ev uid Hty Huid Hfail
                (MAX_REQUEST_RETRIES - 1) 0 w0 fuel)
      as (w' & new' & H1 & H2 & H3 & H4 & H5); [lia|done|lia|].
    exists w', new'. repeat (split; [done|]). rewrite H5. lia.
Qed.

End Properties.

(** * The batch loop *)

Section SortedLists.

Lemma StronglySorted_filter_lt (P : Z → Prop) `{!∀ x, Decision (P x)} (R : relation Z) l :
  StronglySorted R l → StronglySorted R (filter P l).
Proof.
  induction 1 as [|x l Hl IH Hx]; [constructor|].
  rewrite filter_cons. destruct (decide (P x)); [|done].
  constructor; [done|].
  rewrite Forall_forall in Hx |- *. intros y Hy.
  apply Hx. by apply list_elem_of_filter in Hy as [_ ?].
Qed.

Lemma StronglySorted_le_NoDup_lt (l : list Z) :
  StronglySorted Z.le l → NoDup l → StronglySorted Z.lt l.
Proof.
  induction 1 as [|x l Hl IH Hx]; intros Hnd; [constructor|].
  apply NoDup_cons in Hnd as [Hnin Hnd].
  constructor; [auto|].
  rewrite Forall_forall in Hx |- *. intros y Hy.
  specialize (Hx y Hy). assert (x ≠ y) by (intros ->; done). lia.
Qed.

(** Sorting and filtering commute. *)
Lemma merge_sort_filter (P : Z → Prop) `{!∀ x, Decision (P x)} (l : list Z) :
  merge_sort Z.le (filter P l) = filter P (merge_sort Z.le l).
Proof.
  apply (Sorted_unique Z.le).
  - apply Sorted_merge_sort, _.
  - apply StronglySorted_Sorted, StronglySorted_filter_lt.
    apply StronglySorted_merge_sort; apply _.
  - rewrite !merge_sort_Permutation. done.
Qed.

Lemma filter_all (P : Z → Prop) `{!∀ x, Decision (P x)} (l : list Z) :
  Forall P l → filter P l = l.
Proof.
  induction 1 as [|x l Hx _ IH]; [done|].
  by rewrite filter_cons, decide_True, IH.
Qed.

Lemma filter_none (P : Z → Prop) `{!∀ x, Decision (P x)} (l : list Z) :
  Forall (λ x, ¬ P x) l → filter P l = [].
Proof.
  induction 1 as [|x l Hx _ IH]; [done|].
  by rewrite filter_cons, decide_False.
Qed.

(** In a strictly ascending list, the elements beyond the last element
    of a prefix are the rest of the list. *)
Lemma filter_gt_last_take (l : list Z) n c :
  StronglySorted Z.lt l →
  last (take n l) = Some c →
  filter (λ i, c < i) l = drop n l.
Proof.
  intros Hs Hlast.
  rewrite <- (take_drop n l) in Hs.
  rewrite <- (take_drop n l) at 1.
  apply StronglySorted_app in Hs as (Hlt & Hs1 & Hs2).
  rewrite filter_app.
  apply last_Some in Hlast as [l' Hl'].
  rewrite Hl' in Hs1, Hlt.
  apply StronglySorted_app in Hs1 as (Hlt1 & _ & _).
  rewrite filter_none, filter_all; [done| |].
  - apply Forall_forall. intros y Hy. apply Hlt; [|done]. set_solver.
  - rewrite Hl'. apply Forall_forall. intros y Hy.
    apply elem_of_app in Hy as [Hy|Hy].
    + assert (y < c); [|lia]. apply Hlt1; [done|set_solver].
    + apply list_elem_of_singleton in Hy as ->. lia.
Qed.

(** The elements beyond a cursor that is itself beyond [c]. *)
Lemma filter_gt_next (l : list Z) n c c' :
  StronglySorted Z.lt l →
  last (take n (filter (λ i, c < i) l)) = Some c' →
  filter (λ i, c' < i) l = drop n (filter (λ i, c < i) l).
Proof.
  intros Hs Hlast.
  rewrite <- (filter_gt_last_take _ _ c'); [|by apply StronglySorted_filter_lt|done].
  rewrite list_filter_filter_l; [done|].
  intros x Hx.
  assert (c' ∈ filter (λ i, c < i) l) as Hin.
  { apply last_Some_elem_of in Hlast.
    by apply (subseteq_take n). }
  apply list_elem_of_filter in Hin as [? _]. lia.
Qed.

End SortedLists.

Section Batches.

Context {Ext : Type}.
Variable C : @Collaborators Ext.
Variable MAX_REQUEST_RETRIES : nat.

Abbreviation World := (@World Ext).
Abbreviation Store := (@Store Ext).

Lemma filter_fmap_fst {B} (P : Z → Prop) `{!∀ x, Decision (P x)} (l : list (Z * B)) :
  filter P (l.*1) = (filter (λ ib, P ib.1) l).*1.
Proof.
  induction l as [|[i b] l IH]; [done|].
  rewrite fmap_cons, !filter_cons. simpl.
  destruct (decide (P i)); by rewrite ?fmap_cons, IH.
Qed.

(** The target set is in strictly ascending order. *)
Lemma target_sorted (s : Store) realm recipient :
  StronglySorted Z.lt (target s realm recipient).
Proof.
  apply StronglySorted_le_NoDup_lt.
  - apply StronglySorted_merge_sort; apply _.
  - unfold target. rewrite merge_sort_Permutation.
    eapply sublist_NoDup; [apply (NoDup_fst_map_to_list (messages s))|].
    apply fmap_sublist, sublist_filter.
Qed.

Lemma target_length (s : Store) realm recipient :
  (length (target s realm recipient) ≤ size (messages s))%nat.
Proof.
  unfold target. rewrite merge_sort_Permutation, length_fmap.
  rewrite <- length_map_to_list. apply length_filter.
Qed.

(** The query of a batch selects the first [batch_size] ids of the target
    set beyond the cursor. *)
Lemma select_messages_target (s : Store) realm recipient min_id :
  select_messages s realm recipient min_id
  = take batch_size (filter (λ i, min_id < i) (target s realm recipient)).
Proof.
  unfold select_messages, target. f_equal.
  rewrite <- merge_sort_filter. f_equal.
  rewrite filter_fmap_fst, list_filter_filter. f_equal.
  apply list_filter_iff. intros [i m]. simpl. tauto.
Qed.

(** The loop of the source is [run_batches] on the ids beyond the
    cursor; with more fuel than ids it does not run out. *)
Lemma mark_loop_run fuel ev realm recipient start_time :
  ∀ min_id total (w : World),
    let todo := filter (λ i, min_id < i) (target (store w) realm recipient) in
    (length todo < fuel)%nat →
    let run := run_batches fuel todo start_time (perf w) (perf_reads w) in
    mark_loop C fuel ev realm recipient start_time min_id total w
    = (Ok (total + Z.of_nat (length (concat run.1.1))), after_batches C ev run w).
Proof.
  induction fuel as [|fuel IH]; intros min_id total w todo Hfuel run; [lia|].
  subst run. simpl.
  unfold bind at 1, get_store at 1. unfold bind at 1, modify_store at 1.
  unfold bind at 1, emit at 1.
  rewrite select_messages_target. fold todo.
  set (msgs := take batch_size todo).
  destruct (length msgs <? batch_size)%nat eqn:Hlen.
  { unfold ret, after_batches. simpl. rewrite !app_nil_r.
    reflexivity. }
  destruct (last msgs) as [c'|] eqn:Hlast.
  2: { apply last_None in Hlast. rewrite Hlast in Hlen. done. }
  unfold bind at 1, perf_counter at 1. simpl.
  destruct (over_budget start_time (perf w (perf_reads w))) eqn:Hover.
  { unfold queue_json_publish_rollback_unsafe, bind, emit, ret, after_batches.
    simpl. rewrite app_nil_r. f_equal.
    unfold set_queue, set_trace, tick_perf, set_store, continuation. simpl.
    by rewrite <- app_assoc. }
  apply Nat.ltb_ge in Hlen.
  assert (Hnext : filter (λ i, c' < i) (target (store w) realm recipient)
                  = drop batch_size todo).
  { by apply filter_gt_next; [apply target_sorted|]. }
  rewrite IH.
  2: { simpl. change (target _ realm recipient) with (target (store w) realm recipient).
       rewrite Hnext, length_drop.
       unfold msgs in Hlen. rewrite length_take in Hlen.
       unfold batch_size in *. lia. }
  simpl. change (target _ realm recipient) with (target (store w) realm recipient).
  rewrite Hnext.
  set (r := run_batches fuel (drop batch_size todo) start_time (perf w) (S (perf_reads w))).
  f_equal.
  - f_equal. rewrite length_app. lia.
  - unfold after_batches. simpl. by rewrite <- !app_assoc.
Qed.

(** ** The batches of a run *)

Lemma over_budget_self t : over_budget t t = false.
Proof.
  unfold over_budget. apply negb_false_iff, Qle_bool_iff.
  unfold Qminus. by rewrite Qplus_opp_r.
Qed.

Lemma concat_chunks k (todo : list Z) :
  concat (chunks k todo) = take (k * batch_size) todo.
Proof.
  revert todo. induction k as [|k IH]; intros todo; [done|].
  simpl chunks. rewrite concat_cons, IH.
  replace (S k * batch_size)%nat with (batch_size + k * batch_size)%nat by lia.
  by rewrite take_take_drop.
Qed.

Lemma run_batches_spec start_time clock fuel :
  ∀ (todo : list Z) reads,
    (length todo < fuel)%nat →
    let r := run_batches fuel todo start_time clock reads in
    let bs := r.1.1 in
    bs = chunks (length bs) todo
    ∧ bs ≠ []
    ∧ Forall (λ b, length b = batch_size) (take (length bs - 1) bs)
    ∧ (∀ j, (reads ≤ j < reads + length bs - 1)%nat →
            over_budget start_time (clock j) = false)
    ∧ match r.1.2 with
      | None => concat bs = todo ∧ r.2 = (reads + length bs - 1)%nat
      | Some c =>
          last (concat bs) = Some c
          ∧ Forall (λ b, length b = batch_size) bs
          ∧ r.2 = (reads + length bs)%nat
          ∧ over_budget start_time (clock (reads + length bs - 1)%nat) = true
      end.
Proof.
  induction fuel as [|fuel IH]; intros todo reads Hfuel; [lia|].
  simpl. set (msgs := take batch_size todo).
  destruct (length msgs <? batch_size)%nat eqn:Hlen.
  { simpl. fold msgs. repeat split; [done|done|intros; lia| |lia].
    rewrite app_nil_r. apply take_ge.
    apply Nat.ltb_lt in Hlen. unfold msgs in Hlen.
    rewrite length_take in Hlen. lia. }
  apply Nat.ltb_ge in Hlen.
  assert (Hfull : length msgs = batch_size).
  { unfold msgs in *. rewrite length_take in *. lia. }
  destruct (last msgs) as [c|] eqn:Hlast.
  2: { apply last_None in Hlast. rewrite Hlast in Hfull. done. }
  destruct (over_budget start_time (clock reads)) eqn:Hover.
  { simpl. fold msgs. rewrite app_nil_r.
    repeat split; [done|done|intros; lia|done|by repeat constructor|lia|].
    by replace (reads + 1 - 1)%nat with reads by lia. }
  destruct (IH (drop batch_size todo) (S reads))
    as (Hch & Hne & Hfl & Hwithin & Hk).
  { rewrite length_drop. unfold msgs in Hfull. rewrite length_take in Hfull.
    unfold batch_size in *. lia. }
  set (r' := run_batches fuel (drop batch_size todo) start_time clock (S reads)) in *.
  simpl. fold msgs.
  assert (Hpos : (1 ≤ length r'.1.1)%nat).
  { destruct (r'.1.1); [done|simpl; lia]. }
  split; [by rewrite <- Hch|]. split; [done|]. split.
  { rewrite Nat.sub_0_r. destruct (length r'.1.1) as [|n]; [lia|].
    simpl in *. rewrite Nat.sub_0_r in Hfl. by constructor. }
  split.
  { intros j Hj. destruct (decide (j = reads)) as [->|]; [done|].
    apply Hwithin. lia. }
  destruct (r'.1.2) as [c'|].
  - destruct Hk as (Hl & Hf & Hr & Ho). split; [|split; [|split]].
    + by rewrite last_app, Hl.
    + by constructor.
    + lia.
    + by replace (reads + S (length r'.1.1) - 1)%nat
        with (S reads + length r'.1.1 - 1)%nat by lia.
  - destruct Hk as (Hc & Hr). split; [|lia].
    rewrite Hc. apply take_drop.
Qed.

(** ** One invocation on a mark_stream_messages_as_read_for_everyone event *)

Local Opaque mark_loop.

Lemma consume_everyone ev (w : World) stream rid c0 :
  ev !! "type" = Some everyone_type →
  ev !! "stream_recipient_id" = Some (VInt rid) →
  streams (store w) !! rid = Some stream →
  start_cursor ev = VInt c0 →
  consume C MAX_REQUEST_RETRIES ev w = (Ok tt, everyone_world C ev w stream rid c0).
Proof.
  intros Hty Hrid Hstream Hc0.
  pose proof (dispatch_routes C MAX_REQUEST_RETRIES (wall w (wall_reads w)) ev
                (tick_wall w) _ Hty) as Hd.
  simpl in Hd. unfold consume, bind at 1, time_time at 1. unfold bind at 1.
  rewrite Hd. clear Hd.
  unfold mark_stream_messages_as_read_for_everyone.
  change (default (VInt 0) (ev !! "min_id")) with (start_cursor ev).
  rewrite Hc0.
  unfold getitem, logger_info, emit, objects_get, as_int, get_store,
    perf_counter, ret, bind.
  rewrite Hrid. simpl. rewrite Hstream. simpl.
  rewrite mark_loop_run.
  2: { simpl. eapply Nat.le_lt_trans; [apply length_filter|].
       eapply Nat.le_lt_trans; [apply target_length|]. simpl. lia. }
  simpl. rewrite Hty. reflexivity.
Qed.

Local Transparent mark_loop.

Lemma batches_of_app t1 t2 : batches_of (t1 ++ t2) = batches_of t1 ++ batches_of t2.
Proof. apply omap_app. Qed.

Lemma published_of_app t1 t2 : published_of (t1 ++ t2) = published_of t1 ++ published_of t2.
Proof. apply omap_app. Qed.

Lemma batches_of_atomic bs : batches_of (AtomicMarkRead <$> bs) = bs.
Proof. induction bs as [|b bs IH]; [done|]. simpl. by f_equal. Qed.

Lemma published_of_atomic bs : published_of (AtomicMarkRead <$> bs) = [].
Proof. induction bs as [|b bs IH]; [done|]. done. Qed.

(** What one invocation leaves behind. *)
Lemma everyone_world_facts ev (w : World) stream rid c0 :
  let run := everyone_run ev w stream rid c0 in
  let w' := everyone_world C ev w stream rid c0 in
  let cont := match run.1.2 with Some c => [continuation ev c] | None => [] end in
  ∃ new,
    trace w' = trace w ++ new
    ∧ batches_of new = run.1.1
    ∧ published_of new = cont
    ∧ queue w'
      = queue w ++ ((λ e, {| env_queue := "deferred_work"; env_attempts := 0;
                             env_event := e |}) <$> cont)
    ∧ messages (store w') = messages (store w)
    ∧ streams (store w') = streams (store w)
    ∧ perf w' = perf w
    ∧ perf_reads w' = run.2.
Proof.
  intros run w' cont. subst w'. unfold everyone_world. fold run.
  eexists. split.
  { simpl. rewrite <- !app_assoc. reflexivity. }
  rewrite !batches_of_app, !published_of_app, batches_of_atomic, published_of_atomic.
  subst cont. simpl. destruct (run.1.2); simpl; by rewrite ?app_nil_r.
Qed.

Lemma everyone_run_facts ev (w : World) stream rid c0 :
  let todo := filter (λ i, c0 < i) (target (store w) (stream_realm_id stream) rid) in
  let r := everyone_run ev w stream rid c0 in
  let bs := r.1.1 in
  let reads := S (perf_reads w) in
  bs = chunks (length bs) todo
  ∧ bs ≠ []
  ∧ Forall (λ b, length b = batch_size) (take (length bs - 1) bs)
  ∧ (∀ j, (reads ≤ j < reads + length bs - 1)%nat →
          over_budget (perf w (perf_reads w)) (perf w j) = false)
  ∧ match r.1.2 with
    | None => concat bs = todo ∧ r.2 = (reads + length bs - 1)%nat
    | Some c =>
        last (concat bs) = Some c
        ∧ Forall (λ b, length b = batch_size) bs
        ∧ r.2 = (reads + length bs)%nat
        ∧ over_budget (perf w (perf_reads w)) (perf w (reads + length bs - 1)%nat) = true
    end.
Proof.
  apply run_batches_spec.
  eapply Nat.le_lt_trans; [apply length_filter|].
  eapply Nat.le_lt_trans; [apply target_length|]. lia.
Qed.

(** The reading of the clock at which the loop was left tells whether the
    budget stopped it. *)
Lemma everyone_run_budget ev (w : World) stream rid c0 :
  let r := everyone_run ev w stream rid c0 in
  over_budget (perf w (perf_reads w)) (perf w (r.2 - 1)%nat) = bool_decide (is_Some r.1.2).
Proof.
  intros r. destruct (everyone_run_facts ev w stream rid c0) as (_ & Hne & _ & Hin & Hk).
  fold r in Hne, Hin, Hk.
  assert (1 ≤ length r.1.1)%nat by (destruct (r.1.1); [done|simpl; lia]).
  destruct (r.1.2) as [c|].
  - destruct Hk as (_ & _ & -> & Ho).
    rewrite bool_decide_eq_true_2 by eauto. rewrite <- Ho.
    repeat f_equal; lia.
  - destruct Hk as (_ & ->).
    rewrite bool_decide_eq_false_2 by (by intros []).
    destruct (decide (length r.1.1 = 1%nat)) as [Hl|Hl].
    + rewrite Hl. replace (S (perf_reads w) + 1 - 1 - 1)%nat with (perf_reads w) by lia.
      apply over_budget_self.
    + apply Hin. lia.
Qed.

Lemma continuation_lookup_ne (ev : event) c k :
  k ≠ "min_id" → continuation ev c !! k = ev !! k.
Proof. intros. unfold continuation. by rewrite lookup_insert_ne. Qed.

Lemma continuation_lookup (ev : event) c :
  continuation ev c !! "min_id" = Some (VInt c).
Proof. unfold continuation. by rewrite lookup_insert_eq. Qed.

(** C6: when the loop is left with the budget exceeded, one continuation
    event goes to the tail of the queue; it is the original event with
    min_id set to the cursor, the last id of the last batch, and every
    other field as it was.  When the loop is left otherwise, no event is
    put on the queue. *)
Theorem continuation_differs_in_cursor_only ev (w : World) stream rid c0 :
  ev !! "type" = Some everyone_type →
  ev !! "stream_recipient_id" = Some (VInt rid) →
  streams (store w) !! rid = Some stream →
  start_cursor ev = VInt c0 →
  let w' := (consume C MAX_REQUEST_RETRIES ev w).2 in
  let new := effects_since w w' in
  if over_budget (perf w (perf_reads w)) (perf w (perf_reads w' - 1)%nat)
  then ∃ ev' c,
         published_of new = [ev']
         ∧ queue w' = queue w ++ [{| env_queue := "deferred_work"; env_attempts := 0;
                                     env_event := ev' |}]
         ∧ last (concat (batches_of new)) = Some c
         ∧ ev' !! "min_id" = Some (VInt c)
         ∧ ∀ k, k ≠ "min_id" → ev' !! k = ev !! k
  else published_of new = [] ∧ queue w' = queue w.
Proof.
  intros Hty Hrid Hstream Hc0 w' new. subst new w'.
  rewrite (consume_everyone ev w stream rid c0) by done. simpl snd.
  destruct (everyone_world_facts ev w stream rid c0)
    as (new & Ht & Hb & Hp & Hq & _ & _ & _ & Hr).
  cbv zeta in *. rewrite (effects_since_app _ _ _ Ht), Hr, Hb, Hp, Hq.
  rewrite everyone_run_budget.
  destruct (everyone_run_facts ev w stream rid c0) as (_ & _ & _ & _ & Hk).
  cbv zeta in Hk.
  destruct ((everyone_run ev w stream rid c0).1.2) as [c|]; simpl.
  - destruct Hk as (Hl & _). exists (continuation ev c), c.
    repeat split; [done|apply continuation_lookup|].
    intros k Hne. by apply continuation_lookup_ne.
  - by rewrite app_nil_r.
Qed.

Lemma target_ext (s s' : Store) realm recipient :
  messages s' = messages s → target s' realm recipient = target s realm recipient.
Proof. intros H. unfold target. by rewrite H. Qed.

Lemma start_cursor_continuation (ev : event) c :
  start_cursor (continuation ev c) = VInt c.
Proof. unfold start_cursor. by rewrite continuation_lookup. Qed.

Lemma chunks_head k (todo : list Z) :
  (1 ≤ k)%nat → head (chunks k todo) = Some (take batch_size todo).
Proof. destruct k; [lia|done]. Qed.

(** C10: an event without min_id starts from cursor 0, and its first
    batch is the first [batch_size] ids of the target set (the ids being
    positive); an event with min_id starts from that value, and every id
    the run selects is beyond it.  In both cases the first batch is the
    first [batch_size] ids beyond the cursor. *)
Theorem first_batch_from_cursor ev (w : World) stream rid c0 :
  ev !! "type" = Some everyone_type →
  ev !! "stream_recipient_id" = Some (VInt rid) →
  streams (store w) !! rid = Some stream →
  start_cursor ev = VInt c0 →
  let w' := (consume C MAX_REQUEST_RETRIES ev w).2 in
  let bs := batches_of (effects_since w w') in
  let T := target (store w) (stream_realm_id stream) rid in
  (ev !! "min_id" = None → c0 = 0)
  ∧ (∀ v, ev !! "min_id" = Some v → v = VInt c0)
  ∧ head bs = Some (take batch_size (filter (λ i, c0 < i) T))
  ∧ Forall (λ i, c0 < i) (concat bs)
  ∧ (ev !! "min_id" = None → Forall (λ i, 0 < i) T →
     head bs = Some (take batch_size T)).
Proof.
  intros Hty Hrid Hstream Hc0 w' bs T. subst bs w'.
  rewrite (consume_everyone ev w stream rid c0) by done. simpl snd.
  destruct (everyone_world_facts ev w stream rid c0) as (new & Ht & Hb & _).
  cbv zeta in *. rewrite (effects_since_app _ _ _ Ht), Hb.
  destruct (everyone_run_facts ev w stream rid c0) as (Hch & Hne & _).
  cbv zeta in Hch, Hne. fold T in Hch.
  set (bs := (everyone_run ev w stream rid c0).1.1) in *.
  assert (1 ≤ length bs)%nat by (destruct bs; [done|simpl; lia]).
  assert (Hhead : head bs = Some (take batch_size (filter (λ i, c0 < i) T))).
  { rewrite Hch. by apply chunks_head. }
  split; [|split; [|split; [done|split]]].
  - intros Hnone. unfold start_cursor in Hc0. rewrite Hnone in Hc0.
    by injection Hc0.
  - intros v Hv. unfold start_cursor in Hc0. by rewrite Hv in Hc0.
  - rewrite Hch, concat_chunks. apply Forall_forall. intros i Hi.
    apply subseteq_take in Hi. by apply list_elem_of_filter in Hi as [? _].
  - intros Hnone Hpos. rewrite Hhead.
    unfold start_cursor in Hc0. rewrite Hnone in Hc0. injection Hc0 as <-.
    by rewrite filter_all.
Qed.

(** ** The scenario of 120 records *)

Lemma run_two_batches fuel (todo : list Z) st clock reads :
  length todo = 120%nat → (2 ≤ fuel)%nat →
  over_budget st (clock reads) = false →
  over_budget st (clock (S reads)) = true →
  ∃ c, todo !! 99%nat = Some c
       ∧ run_batches fuel todo st clock reads
         = ([take 50 todo; take 50 (drop 50 todo)], Some c, S (S reads)).
Proof.
  intros Hlen Hfuel H1 H2.
  destruct fuel as [|[|fuel]]; [lia..|].
  destruct (lookup_lt_is_Some_2 todo 99) as [c Hc]; [lia|].
  exists c. split; [done|].
  assert (Hl1 : last (take 50 todo) = todo !! 49%nat).
  { rewrite last_lookup, length_take, Hlen. simpl. by rewrite lookup_take_lt by lia. }
  assert (Hl2 : last (take 50 (drop 50 todo)) = Some c).
  { rewrite last_lookup, length_take, length_drop, Hlen. simpl.
    rewrite lookup_take_lt by lia. by rewrite lookup_drop. }
  destruct (lookup_lt_is_Some_2 todo 49) as [c1 Hc1]; [lia|].
  rewrite Hc1 in Hl1.
  cbn [run_batches]. unfold batch_size.
  rewrite length_take, Hlen. simpl Nat.ltb. cbv iota.
  rewrite Hl1, H1.
  cbn [run_batches]. unfold batch_size.
  rewrite length_take, length_drop, Hlen. simpl Nat.ltb. cbv iota.
  by rewrite Hl2, H2.
Qed.

Lemma run_last_batch fuel (todo : list Z) st clock reads :
  (length todo < batch_size)%nat → (1 ≤ fuel)%nat →
  run_batches fuel todo st clock reads = ([todo], None, reads).
Proof.
  intros Hlen Hfuel. destruct fuel as [|fuel]; [lia|].
  cbn [run_batches]. rewrite take_ge by lia.
  by apply Nat.ltb_lt in Hlen as ->.
Qed.

(** ** The rows the batches update *)

Lemma update_read_message ids um :
  um_message_id (update_read C ids um) = um_message_id um.
Proof. unfold update_read. by destruct (_ && _). Qed.

Lemma update_read_off ids um :
  um_message_id um ∉ ids → update_read C ids um = um.
Proof. intros H. unfold update_read. by rewrite bool_decide_eq_false_2. Qed.

Lemma update_read_ext ids ids' um :
  (um_message_id um ∈ ids ↔ um_message_id um ∈ ids') →
  update_read C ids um = update_read C ids' um.
Proof. intros H. unfold update_read. by rewrite (bool_decide_ext _ _ H). Qed.

(** Updating for [ids'] after [ids] is updating for both at once. *)
Lemma update_read_twice ids ids' um :
  update_read C ids' (update_read C ids um) = update_read C (ids ++ ids') um.
Proof.
  destruct (decide (um_message_id um ∈ ids)) as [Hin|Hout].
  - assert (Hboth : um_message_id um ∈ ids ++ ids') by (apply elem_of_app; by left).
    unfold update_read at 2 3.
    rewrite !bool_decide_eq_true_2 by done. simpl.
    destruct (where_unread C um) eqn:Hu; simpl.
    + unfold update_read. simpl.
      destruct (_ && _); [|done].
      simpl. f_equal. by rewrite <- Z.lor_assoc, Z.lor_diag.
    + unfold update_read. rewrite Hu. by rewrite andb_false_r.
  - rewrite (update_read_off ids um) by done.
    apply update_read_ext. rewrite elem_of_app. tauto.
Qed.

Lemma foldl_update_read (bs : list (list Z)) (ums : list UserMessage) :
  foldl (λ u b, map (update_read C b) u) ums bs
  = map (update_read C (concat bs)) ums.
Proof.
  revert ums. induction bs as [|b bs IH]; intros ums; simpl.
  - induction ums as [|um ums IHu]; [done|]. simpl.
    rewrite update_read_off by (by intros ?%elem_of_nil). by f_equal.
  - rewrite IH, map_map. apply map_ext. intros um. apply update_read_twice.
Qed.

Lemma everyone_world_store ev (w : World) stream rid c0 :
  store (everyone_world C ev w stream rid c0)
  = set_usermessages
      (map (update_read C (concat (everyone_run ev w stream rid c0).1.1))) (store w).
Proof.
  transitivity
    (set_usermessages
       (λ ums, foldl (λ u b, map (update_read C b) u) ums
                 (everyone_run ev w stream rid c0).1.1)
       (store w)); [reflexivity|].
  unfold set_usermessages. by rewrite foldl_update_read.
Qed.

Lemma land_pow2 f k :
  0 ≤ k → Z.land f (2 ^ k) = 0 ∨ Z.land f (2 ^ k) = 2 ^ k.
Proof.
  intros Hk. destruct (Z.testbit f k) eqn:Hb; [right|left]; apply Z.bits_inj'.
  - intros n Hn. rewrite Z.land_spec, Z.pow2_bits_eqb by done.
    destruct (Z.eqb_spec k n) as [->|]; [by rewrite Hb|by rewrite andb_false_r].
  - intros n Hn. rewrite Z.land_spec, Z.pow2_bits_eqb, Z.bits_0 by done.
    destruct (Z.eqb_spec k n) as [->|]; [by rewrite Hb|by rewrite andb_false_r].
Qed.

Lemma lor_land_pow2 f k : 0 ≤ k → Z.land (Z.lor f (2 ^ k)) (2 ^ k) = 2 ^ k.
Proof.
  intros Hk. apply Z.bits_inj'. intros n Hn.
  rewrite Z.land_spec, Z.lor_spec. destruct (Z.testbit (2 ^ k) n); by rewrite ?orb_true_r, ?andb_false_r.
Qed.

Lemma marked_read_update ids (s : Store) :
  marked_read C ids s (set_usermessages (map (update_read C ids)) s).
Proof.
  split; [|done]. simpl.
  induction (usermessages s) as [|um ums IH]; simpl; constructor; [|done].
  unfold update_read. by destruct (bool_decide _ && _).
Qed.

Lemma update_read_rows_read ids (ums : list UserMessage) um' :
  flags_consistent C →
  um' ∈ map (update_read C ids) ums → um_message_id um' ∈ ids → has_read_flag C um'.
Proof.
  intros [(k & Hk & Hr) Hu] Hin Hid.
  apply list_elem_of_In, in_map_iff in Hin as (um & <- & _).
  rewrite update_read_message in Hid.
  unfold has_read_flag, update_read. rewrite bool_decide_eq_true_2 by done. simpl.
  destruct (where_unread C um) eqn:Hun; simpl.
  - rewrite Hr. by apply lor_land_pow2.
  - rewrite Hu in Hun. apply Z.eqb_neq in Hun.
    rewrite Hr in *. by destruct (land_pow2 (um_flags um) k Hk).
Qed.

(** C5: a target set of 120 records, no min_id, and a clock that is
    within the budget after the first batch and beyond it after the
    second.  The invocation commits two batches of 50, the first 100 ids
    of the target set, whose unread rows get the read flag while every
    other row and table stays as it was, and puts one continuation event
    on the queue, its cursor the id of the 100th record; the invocation
    on that event commits the remaining 20 ids in one batch, marks their
    rows and puts nothing on the queue.  After the two invocations the
    rows of all 120 records are marked, and carry the read flag when the
    flag helpers of UserMessage agree. *)
Theorem budget_after_two_batches ev (w : World) stream rid :
  ev !! "type" = Some everyone_type →
  ev !! "stream_recipient_id" = Some (VInt rid) →
  streams (store w) !! rid = Some stream →
  ev !! "min_id" = None →
  queue w = [] →
  let T := target (store w) (stream_realm_id stream) rid in
  length T = 120%nat →
  Forall (λ i, 0 < i) T →
  over_budget (perf w (perf_reads w)) (perf w (S (perf_reads w))) = false →
  over_budget (perf w (perf_reads w)) (perf w (S (S (perf_reads w)))) = true →
  let w1 := (consume C MAX_REQUEST_RETRIES ev w).2 in
  let new1 := effects_since w w1 in
  ∃ c,
    T !! 99%nat = Some c
    ∧ (consume C MAX_REQUEST_RETRIES ev w).1 = Ok tt
    ∧ batches_of new1 = [take 50 T; take 50 (drop 50 T)]
    ∧ Forall (λ b, length b = 50%nat) (batches_of new1)
    ∧ last (concat (batches_of new1)) = Some c
    ∧ published_of new1 = [continuation ev c]
    ∧ queue w1 = [{| env_queue := "deferred_work"; env_attempts := 0;
                     env_event := continuation ev c |}]
    ∧ marked_read C (take 100 T) (store w) (store w1)
    ∧ let w2 := deliver {| env_queue := "deferred_work"; env_attempts := 0;
                           env_event := continuation ev c |} [] w1 in
      let r := consume C MAX_REQUEST_RETRIES (continuation ev c) w2 in
      let new2 := effects_since w2 r.2 in
      r.1 = Ok tt
      ∧ batches_of new2 = [drop 100 T]
      ∧ length (drop 100 T) = 20%nat
      ∧ published_of new2 = []
      ∧ queue r.2 = []
      ∧ marked_read C (drop 100 T) (store w2) (store r.2)
      ∧ marked_read C T (store w) (store r.2)
      ∧ (flags_consistent C →
         ∀ um', um' ∈ usermessages (store r.2) → um_message_id um' ∈ T →
                has_read_flag C um').
Proof.
  intros Hty Hrid Hstream Hmin Hq T Hlen Hpos Hin Hout w1 new1.
  assert (Hc0 : start_cursor ev = VInt 0).
  { unfold start_cursor. by rewrite Hmin. }
  subst new1 w1.
  rewrite (consume_everyone ev w stream rid 0) by done. simpl fst. simpl snd.
  destruct (everyone_world_facts ev w stream rid 0)
    as (new & Ht & Hb & Hp & Hqu & Hm & Hs & Hpf & Hr).
  cbv zeta in *. rewrite (effects_since_app _ _ _ Ht), Hb, Hp, Hqu, Hq.
  set (w1 := everyone_world C ev w stream rid 0) in *.
  destruct (run_two_batches (S (size (messages (store w)))) T
              (perf w (perf_reads w)) (perf w) (S (perf_reads w)))
    as (c & Hc & Hrun); [done| |done..|].
  { pose proof (target_length (store w) (stream_realm_id stream) rid).
    fold T in H. lia. }
  assert (Hrun' : everyone_run ev w stream rid 0
                  = ([take 50 T; take 50 (drop 50 T)], Some c, S (S (S (perf_reads w))))).
  { unfold everyone_run. fold T. by rewrite filter_all. }
  assert (Hst1 : store w1
                 = set_usermessages (map (update_read C (take 100 T))) (store w)).
  { subst w1. rewrite everyone_world_store, Hrun'. cbn [fst snd concat].
    by rewrite app_nil_r, take_take_drop. }
  assert (Hmr1 : marked_read C (take 100 T) (store w) (store w1))
    by (rewrite Hst1; apply marked_read_update).
  rewrite Hrun'. simpl.
  exists c. split; [done|]. split; [done|]. split; [done|].
  split; [repeat constructor; rewrite length_take, ?length_drop, Hlen; done|].
  split.
  { rewrite app_nil_r, last_app.
    rewrite (last_lookup (take 50 (drop 50 T))), length_take, length_drop, Hlen.
    simpl. rewrite lookup_take_lt by lia. rewrite lookup_drop.
    change (50 + 49)%nat with 99%nat. by rewrite Hc. }
  split; [done|]. split; [done|].
  split; [exact Hmr1|].
  set (env := {| env_queue := "deferred_work"; env_attempts := 0;
                 env_event := continuation ev c |}).
  set (w2 := deliver env [] w1).
  assert (Hm2 : messages (store w2) = messages (store w)) by done.
  assert (Hnext : filter (λ i, c < i)
                    (target (store w2) (stream_realm_id stream) rid)
                  = drop 100 T).
  { rewrite (target_ext (store w) (store w2)) by done. fold T.
    apply filter_gt_last_take; [apply target_sorted|].
    rewrite last_lookup, length_take, Hlen. simpl.
    by rewrite lookup_take_lt by lia. }
  rewrite (consume_everyone (continuation ev c) w2 stream rid c).
  2: by rewrite continuation_lookup_ne.
  2: by rewrite continuation_lookup_ne.
  2: by (change (store w2) with (store w1); rewrite Hs).
  2: apply start_cursor_continuation.
  simpl fst. simpl snd.
  destruct (everyone_world_facts (continuation ev c) w2 stream rid c)
    as (new2 & Ht2 & Hb2 & Hp2 & Hqu2 & _).
  cbv zeta in *. rewrite (effects_since_app _ _ _ Ht2), Hb2, Hp2, Hqu2.
  assert (Hrun2 : everyone_run (continuation ev c) w2 stream rid c
                  = ([drop 100 T], None, S (perf_reads w2))).
  { unfold everyone_run. rewrite Hnext. apply run_last_batch; [|lia].
    rewrite length_drop, Hlen. unfold batch_size. lia. }
  set (w3 := everyone_world C (continuation ev c) w2 stream rid c).
  assert (Hst3 : store w3
                 = set_usermessages (map (update_read C (drop 100 T))) (store w2)).
  { subst w3. rewrite everyone_world_store, Hrun2. cbn [fst snd concat].
    by rewrite app_nil_r. }
  assert (Hst13 : store w3 = set_usermessages (map (update_read C T)) (store w)).
  { rewrite Hst3. change (store w2) with (store w1). rewrite Hst1.
    unfold set_usermessages. cbn. f_equal. rewrite map_map.
    apply map_ext. intros um. by rewrite update_read_twice, take_drop. }
  assert (Hmr3 : marked_read C (drop 100 T) (store w2) (store w3))
    by (rewrite Hst3; apply marked_read_update).
  assert (Hmr13 : marked_read C T (store w) (store w3))
    by (rewrite Hst13; apply marked_read_update).
  assert (Hread : flags_consistent C →
                  ∀ um', um' ∈ usermessages (store w3) → um_message_id um' ∈ T →
                         has_read_flag C um').
  { intros Hf um' Hum' Hid. rewrite Hst13 in Hum'.
    by apply (update_read_rows_read T (usermessages (store w)) um' Hf). }
  clearbody w3. rewrite Hrun2. simpl.
  split; [done|]. split; [done|].
  split; [by rewrite length_drop, Hlen|].
  split; [done|]. split; [done|].
  split; [exact Hmr3|]. split; [exact Hmr13|exact Hread].
Qed.

(** ** Continuation sequences *)

Lemma chunks_app k1 k2 (todo : list Z) :
  chunks (k1 + k2) todo
  = chunks k1 todo ++ chunks k2 (drop (k1 * batch_size) todo).
Proof.
  revert todo. induction k1 as [|k1 IH]; intros todo; [done|].
  simpl chunks. rewrite IH, drop_drop. do 3 f_equal.
Qed.

Lemma length_chunks k (todo : list Z) : length (chunks k todo) = k.
Proof. revert todo. induction k; intros; simpl; auto. Qed.

Lemma length_concat_full (bs : list (list Z)) :
  Forall (λ b, length b = batch_size) bs →
  length (concat bs) = (length bs * batch_size)%nat.
Proof.
  induction 1 as [|b bs Hb _ IH]; [done|].
  rewrite concat_cons, length_app, IH, Hb. simpl. lia.
Qed.

Lemma published_cursors_app t1 t2 :
  published_cursors (t1 ++ t2) = published_cursors t1 ++ published_cursors t2.
Proof. unfold published_cursors. by rewrite published_of_app, omap_app. Qed.

Lemma worker_loop_empty fuel (w : World) :
  queue w = [] → worker_loop C MAX_REQUEST_RETRIES fuel w = (Ok tt, w).
Proof. intros H. destruct fuel; simpl; by rewrite H. Qed.

Lemma continuation_sequence n :
  ∀ ev (w : World) stream rid c0 env fuel,
    queue w = [env] → env_event env = ev →
    ev !! "type" = Some everyone_type →
    ev !! "stream_recipient_id" = Some (VInt rid) →
    streams (store w) !! rid = Some stream →
    start_cursor ev = VInt c0 →
    let T := target (store w) (stream_realm_id stream) rid in
    (length (filter (λ i, (c0 < i)%Z) T) ≤ n)%nat →
    (n < fuel)%nat →
    ∃ w' new,
      worker_loop C MAX_REQUEST_RETRIES fuel w = (Ok tt, w')
      ∧ queue w' = []
      ∧ trace w' = trace w ++ new
      ∧ covers c0 T new.
Proof.
  induction n as [n IH] using lt_wf_ind.
  intros ev w stream rid c0 env fuel Hq Hev Hty Hrid Hstream Hc0 T Hn Hfuel.
  destruct fuel as [|fuel]; [lia|].
  simpl. rewrite Hq, Hev.
  set (w0 := deliver env [] w).
  rewrite (consume_everyone ev w0 stream rid c0) by done.
  destruct (everyone_world_facts ev w0 stream rid c0)
    as (new & Ht & Hb & Hp & Hqu & Hm & Hs & _ & _).
  destruct (everyone_run_facts ev w0 stream rid c0)
    as (Hch & Hne & Hfl & _ & Hk).
  cbv zeta in *.
  change (target (store w0) (stream_realm_id stream) rid) with T in *.
  set (W := everyone_world C ev w0 stream rid c0) in *.
  set (run := everyone_run ev w0 stream rid c0) in *.
  set (todo := filter (λ i, c0 < i) T) in *.
  destruct (run.1.2) as [c|] eqn:Hstop.
  - (* the budget stopped the run: the continuation is delivered next *)
    destruct Hk as (Hlast & Hfull & _ & _).
    set (m := (length run.1.1 * batch_size)%nat).
    assert (Hcat : concat run.1.1 = take m todo).
    { rewrite Hch at 1. apply concat_chunks. }
    assert (Hm_le : length (concat run.1.1) = m) by by apply length_concat_full.
    assert (Hin : c ∈ todo).
    { apply last_Some_elem_of in Hlast. rewrite Hcat in Hlast.
      by apply subseteq_take in Hlast. }
    assert (Hc0c : c0 < c) by (by apply list_elem_of_filter in Hin as [? _]).
    assert (Hnext : filter (λ i, c < i) T = drop m todo).
    { apply filter_gt_next; [apply target_sorted|].
      change (last (take m todo) = Some c). by rewrite <- Hcat. }
    assert (Hshort : (length (drop m todo) < length todo)%nat).
    { rewrite length_drop.
      assert (1 ≤ length run.1.1)%nat by (destruct (run.1.1); [done|simpl; lia]).
      assert (length (concat run.1.1) ≤ length todo)%nat.
      { rewrite Hcat. rewrite length_take. lia. }
      unfold m, batch_size in *. lia. }
    edestruct (IH (length (drop m todo))) with
      (ev := continuation ev c) (w := W) (c0 := c) (fuel := fuel)
      as (w' & new' & Hl & Hq' & Ht' & Hcov).
    { lia. }
    { rewrite Hqu. simpl. reflexivity. }
    { reflexivity. }
    { by rewrite continuation_lookup_ne. }
    { by rewrite continuation_lookup_ne. }
    { by rewrite Hs. }
    { apply start_cursor_continuation. }
    { rewrite (target_ext (store w0) (store W)) by done.
      change (target (store w0) (stream_realm_id stream) rid) with T.
      by rewrite Hnext. }
    { lia. }
    rewrite (target_ext (store w0) (store W)) in Hcov by done.
    change (target (store w0) (stream_realm_id stream) rid) with T in Hcov.
    destruct Hcov as (Hch' & Hne' & Hfl' & Hcat' & Hsort'). cbv zeta in *.
    rewrite Hnext in Hch', Hcat'.
    exists w', (new ++ new'). split; [done|]. split; [done|].
    split; [by rewrite Ht', Ht, app_assoc|].
    unfold covers. cbv zeta. fold todo.
    rewrite batches_of_app, published_cursors_app, Hb.
    assert (1 ≤ length (batches_of new'))%nat
      by (destruct (batches_of new'); [done|simpl; lia]).
    split; [|split; [|split; [|split]]].
    + rewrite length_app, chunks_app. fold m. by rewrite <- Hch, <- Hch'.
    + by destruct (run.1.1).
    + rewrite length_app.
      replace (length run.1.1 + length (batches_of new') - 1)%nat
        with (length run.1.1 + (length (batches_of new') - 1))%nat by lia.
      rewrite take_app_add. by apply Forall_app.
    + rewrite concat_app, Hcat, Hcat'. apply take_drop.
    + unfold published_cursors at 1. rewrite Hp. simpl.
      rewrite continuation_lookup. simpl.
      constructor; [done|].
      apply StronglySorted_cons in Hsort' as [Hgt _].
      constructor; [done|].
      eapply Forall_impl; [exact Hgt|]. simpl. intros; lia.
  - (* the run finished *)
    destruct Hk as (Hcat & _).
    assert (HqW : queue W = []) by (by rewrite Hqu).
    exists W, new. split.
    { by apply worker_loop_empty. }
    split; [done|]. split; [done|].
    unfold covers. cbv zeta. fold todo. rewrite Hb.
    repeat split; try done.
    unfold published_cursors. rewrite Hp. simpl. by repeat constructor.
Qed.

Lemma take_chunks i k (todo : list Z) :
  (i ≤ k)%nat → take i (chunks k todo) = chunks i todo.
Proof.
  intros Hi. replace k with (i + (k - i))%nat by lia.
  rewrite chunks_app, take_app_length'; [done|by rewrite length_chunks].
Qed.

Lemma chunks_lookup i k (todo : list Z) :
  (i < k)%nat →
  chunks k todo !! i = Some (take batch_size (drop (i * batch_size) todo)).
Proof.
  intros Hi. replace k with (i + S (k - S i))%nat by lia.
  rewrite chunks_app, lookup_app_r; rewrite length_chunks; [|lia].
  by rewrite Nat.sub_diag.
Qed.

(** Every batch is the selection of the source at the cursor in force. *)
Lemma selection_of_chunks (T : list Z) c0 (bs : list (list Z)) i b :
  StronglySorted Z.lt T →
  bs = chunks (length bs) (filter (λ x, c0 < x) T) →
  Forall (λ b, length b = batch_size) (take (length bs - 1) bs) →
  bs !! i = Some b →
  b = take batch_size (filter (λ x, cursor_at c0 bs i < x) T).
Proof.
  intros HT Hch Hfull Hb.
  set (todo := filter (λ x, c0 < x) T) in *.
  assert (Hi : (i < length bs)%nat) by (by eapply lookup_lt_Some).
  rewrite Hch, chunks_lookup in Hb by done. injection Hb as <-.
  assert (Hcat : concat (take i bs) = take (i * batch_size) todo).
  { rewrite Hch, take_chunks by lia. apply concat_chunks. }
  unfold cursor_at. rewrite Hcat.
  destruct i as [|i]; [done|].
  assert (Hlen : length (concat (take (S i) bs)) = (S i * batch_size)%nat).
  { rewrite length_concat_full.
    - rewrite length_take. lia.
    - replace (take (S i) bs) with (take (S i) (take (length bs - 1) bs))
        by (rewrite take_take; f_equal; lia).
      by apply Forall_take. }
  rewrite Hcat in Hlen.
  destruct (last (take (S i * batch_size) todo)) as [c|] eqn:Hlast.
  - change (take batch_size (drop (S i * batch_size) todo)
            = take batch_size (filter (λ x, c < x) T)).
    f_equal. symmetry. by apply filter_gt_next.
  - apply last_None in Hlast. rewrite Hlast in Hlen. done.
Qed.

Lemma lasts_sorted (P : list Z → Prop) `{!∀ b, Decision (P b)} (bs : list (list Z)) :
  StronglySorted Z.lt (concat bs) →
  StronglySorted Z.lt (omap last (filter P bs))
  ∧ ∀ c, c ∈ omap last (filter P bs) → c ∈ concat bs.
Proof.
  induction bs as [|b bs IH]; intros Hs.
  { split; [constructor|]. by intros c Hc. }
  rewrite concat_cons in Hs. apply StronglySorted_app in Hs as (Hlt & _ & Hs).
  destruct (IH Hs) as [IH1 IH2].
  rewrite filter_cons. destruct (decide (P b)); simpl.
  2: { split; [done|]. intros c Hc. apply elem_of_app. right. by apply IH2. }
  destruct (last b) as [c|] eqn:Hlast.
  2: { split; [done|]. intros c Hc. apply elem_of_app. right. by apply IH2. }
  apply last_Some_elem_of in Hlast.
  split.
  - constructor; [done|]. apply Forall_forall. intros c' Hc'.
    apply Hlt; [done|by apply IH2].
  - intros c' Hc'. apply elem_of_app.
    apply elem_of_cons in Hc' as [->|Hc']; [by left|right; by apply IH2].
Qed.

(** C7: a continuation sequence, from the delivery of an event to the
    empty queue.  Every batch is the first [batch_size] ids of the target
    set beyond the cursor in force; the cursor values, and the cursors of
    the continuation events, are strictly increasing; the batches put
    end to end are the ids of the target set beyond the starting cursor,
    in strictly ascending order, each once; from an event without min_id,
    the ids being positive, they are the whole target set. *)
Theorem cursor_monotonic_and_covering ev (w : World) stream rid c0 env fuel :
  queue w = [env] → env_event env = ev →
  ev !! "type" = Some everyone_type →
  ev !! "stream_recipient_id" = Some (VInt rid) →
  streams (store w) !! rid = Some stream →
  start_cursor ev = VInt c0 →
  let T := target (store w) (stream_realm_id stream) rid in
  (length (filter (λ x, (c0 < x)%Z) T) < fuel)%nat →
  ∃ w',
    worker_loop C MAX_REQUEST_RETRIES fuel w = (Ok tt, w')
    ∧ queue w' = []
    ∧ let new := effects_since w w' in
      let bs := batches_of new in
      (∀ i b, bs !! i = Some b →
              b = take batch_size (filter (λ x, cursor_at c0 bs i < x) T))
      ∧ StronglySorted Z.lt (cursor_values c0 bs)
      ∧ StronglySorted Z.lt (c0 :: published_cursors new)
      ∧ StronglySorted Z.lt (concat bs)
      ∧ NoDup (concat bs)
      ∧ concat bs = filter (λ x, c0 < x) T
      ∧ (ev !! "min_id" = None → Forall (λ x, 0 < x) T → concat bs = T).
Proof.
  intros Hq Hev Hty Hrid Hstream Hc0 T Hfuel.
  destruct (continuation_sequence (length (filter (λ x, c0 < x) T))
              ev w stream rid c0 env fuel)
    as (w' & new & Hl & Hq' & Ht & Hch & Hne & Hfl & Hcat & Hsort);
    try done.
  cbv zeta in *. fold T in Hch, Hcat.
  exists w'. split; [done|]. split; [done|].
  rewrite (effects_since_app _ _ _ Ht).
  pose proof (target_sorted (store w) (stream_realm_id stream) rid) as HT.
  fold T in HT.
  assert (Hs : StronglySorted Z.lt (concat (batches_of new))).
  { rewrite Hcat. by apply StronglySorted_filter_lt. }
  split; [|split; [|split; [done|split; [done|split; [|split; [done|]]]]]].
  - intros i b Hb. by apply (selection_of_chunks T c0 _ i b).
  - unfold cursor_values.
    destruct (lasts_sorted (λ b, length b = batch_size) _ Hs) as [H1 H2].
    constructor; [done|]. apply Forall_forall. intros c Hc.
    apply H2 in Hc. rewrite Hcat in Hc. by apply list_elem_of_filter in Hc as [? _].
  - clear -Hs. induction Hs as [|x l _ IH Hx]; constructor; [|done].
    intros Hin. rewrite Forall_forall in Hx. specialize (Hx x Hin). lia.
  - intros Hmin Hpos. rewrite Hcat.
    unfold start_cursor in Hc0. rewrite Hmin in Hc0. injection Hc0 as <-.
    by apply filter_all.
Qed.

End Batches.

(** * Further properties of the handler *)

Section Further.

Context {Ext : Type}.
Variable C : @Collaborators Ext.
Variable MAX_REQUEST_RETRIES : nat.

Abbreviation M := (@M Ext).
Abbreviation World := (@World Ext).
Abbreviation Store := (@Store Ext).

(** ** Exceptions that leave the handler *)

Lemma consume_by_dispatch ev (w : World) :
  consume C MAX_REQUEST_RETRIES ev w
  = match dispatch C MAX_REQUEST_RETRIES (wall w (wall_reads w)) ev (tick_wall w) with
    | (Ok Return, w1) => (Ok tt, w1)
    | (Ok Fallthrough, w1) =>
        match ev !! "type" with
        | Some ty => (Ok tt, completed ty (wall w (wall_reads w)) w1)
        | None => (Raise (KeyError "type"), tick_wall w1)
        end
    | (Raise e, w1) => (Raise e, w1)
    | (OutOfFuel, w1) => (OutOfFuel, w1)
    end.
Proof.
  unfold consume, bind at 1, time_time at 1. unfold bind at 1.
  destruct (dispatch _ _ _ _ _) as [[[|]|e|] w1]; try done.
  unfold bind, time_time, getitem. by destruct (ev !! "type").
Qed.

Lemma raise_no_completion_log ev (w : World) e :
  (consume C MAX_REQUEST_RETRIES ev w).1 = Raise e →
  count is_completion_log (effects_since w (consume C MAX_REQUEST_RETRIES ev w).2) = 0%nat.
Proof.
  rewrite consume_by_dispatch.
  destruct (emits_dispatch C MAX_REQUEST_RETRIES (wall w (wall_reads w)) ev (tick_wall w))
    as (new & Hnew & Hall).
  destruct (dispatch _ _ _ _ _) as [[[|]|e'|] w1] eqn:Hd; simpl in *; try done.
  - destruct (ev !! "type") eqn:Hty; [done|].
    revert Hd. unfold dispatch, type_is, bind at 1 2, getitem at 1. by rewrite Hty.
  - intros _. rewrite (effects_since_app _ _ _ Hnew). by apply count_none.
Qed.

(** X1: an exception that leaves [consume] leaves no completion record
    behind. *)
Theorem raised_without_completion_log ev (w : World) e :
  (consume C MAX_REQUEST_RETRIES ev w).1 = Raise e →
  count is_completion_log (effects_since w (consume C MAX_REQUEST_RETRIES ev w).2) = 0%nat.
Proof. apply raise_no_completion_log. Qed.

(** ** The fuel of the loop *)

Abbreviation nof := (@never_out_of_fuel Ext _).

Lemma nof_bind {A B} (c : M A) (k : A → M B) :
  nof c → (∀ a, nof (k a)) → nof (bind c k).
Proof.
  intros Hc Hk w. unfold bind. specialize (Hc w).
  destruct (c w) as [[a|e|] w1]; simpl in *; [apply Hk|done..].
Qed.

Lemma nof_try_except {A} (c : M A) class handler :
  nof c → nof handler → nof (try_except c class handler).
Proof.
  intros Hc Hh w. unfold try_except. specialize (Hc w).
  destruct (c w) as [[a|e|] w1]; simpl in *; [done| |done].
  destruct (class e); [apply Hh|done].
Qed.

Lemma nof_call {A} f args (op : Store → Store * outcome A) : nof (call f args op).
Proof. intros w. unfold call. by destruct (op _) as [s' [a|e]]. Qed.

Lemma nof_getitem ev k : nof (getitem ev k).
Proof. intros w. unfold getitem. by destruct (ev !! k). Qed.

Lemma nof_as_int v : nof (as_int v).
Proof. intros w. by destruct v. Qed.

Lemma nof_objects_get {A} model (table : Store → gmap Z A) v :
  nof (objects_get model table v).
Proof.
  unfold objects_get. apply nof_bind; [apply nof_as_int|]. intros k w.
  unfold bind, get_store. by destruct (table (store w) !! k).
Qed.

Lemma nof_iterate v : nof (iterate v).
Proof. intros w. by destruct v. Qed.

Lemma nof_for_each {A} (l : list A) body :
  (∀ x, nof (body x)) → nof (for_each l body).
Proof.
  intros H. induction l as [|x l IH]; simpl; [done|]. by apply nof_bind.
Qed.

Lemma nof_datetime_field v : nof (datetime_field C v).
Proof. intros w. destruct v as [n|t|l|]; simpl; [|destruct (datetime_valid C t)|..]; done. Qed.

Lemma nof_plain {A} (c : M A) : (∀ w, ∃ a w', c w = (Ok a, w')) → nof c.
Proof. intros H w. by destruct (H w) as (a & w' & ->). Qed.

Ltac nof_step :=
  lazymatch goal with
  | |- never_out_of_fuel (mark_loop _ _ _ _ _ _ _ _) => fail
  | |- never_out_of_fuel (retry_event _ _ _ _) => fail
  | _ => idtac
  end;
  first
    [ apply nof_getitem | apply nof_as_int | apply nof_objects_get
    | apply nof_iterate | apply nof_call | apply nof_datetime_field
    | apply nof_bind; [|intros ?]
    | apply nof_try_except
    | apply nof_for_each; intros ?
    | apply nof_plain; intros ?; by eexists _, _ ].

Ltac nof_auto := repeat nof_step.

Lemma nof_retry_event q ev :
  nof (retry_event MAX_REQUEST_RETRIES q ev failure_processor).
Proof.
  intros w. unfold retry_event. destruct (_ <=? _)%nat; [|done].
  revert w. change (nof (failure_processor ev)). unfold failure_processor. nof_auto.
Qed.

Lemma nof_everyone ev : nof (mark_stream_messages_as_read_for_everyone C ev).
Proof.
  unfold mark_stream_messages_as_read_for_everyone.
  do 8 (apply nof_bind; [nof_auto|]; intros ?).
  intros w. unfold bind at 1, get_store at 1. unfold bind at 1.
  rewrite mark_loop_run.
  - revert w. cbv zeta.
    intros w. unfold bind, getitem, logger_info, emit, ret.
    by destruct (ev !! "stream_recipient_id").
  - eapply Nat.le_lt_trans; [apply length_filter|].
    eapply Nat.le_lt_trans; [apply target_length|]. lia.
Qed.

Lemma nof_dispatch start ev : nof (dispatch C MAX_REQUEST_RETRIES start ev).
Proof.
  unfold dispatch.
  repeat (apply nof_bind; [unfold type_is; nof_auto|]; intros [|]);
    [..|nof_auto].
  - unfold mark_stream_messages_as_read. nof_auto.
  - apply nof_everyone.
  - unfold clear_push_device_tokens_branch. nof_auto. apply nof_retry_event.
  - unfold realm_export, realm_export_load, load_export_row. nof_auto.
    + case_bool_decide; nof_auto.
      destruct (extra_data _ !! _) as [[]|]; nof_auto.
    + case_bool_decide.
      * unfold realm_export_redelivered, timezone_now. nof_auto.
      * unfold realm_export_run. nof_auto.
        destruct a1; nof_auto. destruct (a.2.2); nof_auto.
  - unfold reupload_realm_emoji. nof_auto.
  - unfold soft_reactivate. nof_auto.
  - unfold push_bouncer_update_for_realm. nof_auto.
Qed.

(** X2: the handler does not run out of fuel: the loop of
    mark_stream_messages_as_read_for_everyone ends, whatever the event,
    the tables and the clock. *)
Theorem consume_never_out_of_fuel ev (w : World) :
  (consume C MAX_REQUEST_RETRIES ev w).1 ≠ OutOfFuel.
Proof.
  rewrite consume_by_dispatch.
  pose proof (nof_dispatch (wall w (wall_reads w)) ev (tick_wall w)) as H.
  destruct (dispatch _ _ _ _ _) as [[[|]|e|] w1]; simpl in *; try done.
  by destruct (ev !! "type").
Qed.

(** ** The queue *)

Abbreviation kq := (@keeps_queue Ext _).

Lemma kq_bind {A B} (c : M A) (k : A → M B) :
  kq c → (∀ a, kq (k a)) → kq (bind c k).
Proof.
  intros Hc Hk w. unfold bind. specialize (Hc w).
  destruct (c w) as [[a|e|] w1]; simpl in *; [|done..].
  by rewrite Hk.
Qed.

Lemma kq_try_except {A} (c : M A) class handler :
  kq c → kq handler → kq (try_except c class handler).
Proof.
  intros Hc Hh w. unfold try_except. specialize (Hc w).
  destruct (c w) as [[a|e|] w1]; simpl in *; [done| |done].
  destruct (class e); [by rewrite Hh|done].
Qed.

Lemma kq_call {A} f args (op : Store → Store * outcome A) : kq (call f args op).
Proof. intros w. unfold call. by destruct (op _) as [s' [a|e]]. Qed.

Lemma kq_getitem ev k : kq (getitem ev k).
Proof. intros w. unfold getitem. by destruct (ev !! k). Qed.

Lemma kq_as_int v : kq (as_int v).
Proof. intros w. by destruct v. Qed.

Lemma kq_objects_get {A} model (table : Store → gmap Z A) v :
  kq (objects_get model table v).
Proof.
  unfold objects_get. apply kq_bind; [apply kq_as_int|]. intros k w.
  unfold bind, get_store. by destruct (table (store w) !! k).
Qed.

Lemma kq_iterate v : kq (iterate v).
Proof. intros w. by destruct v. Qed.

Lemma kq_datetime_field v : kq (datetime_field C v).
Proof. intros w. destruct v as [n|t|l|]; simpl; [|destruct (datetime_valid C t)|..]; done. Qed.

Lemma kq_for_each {A} (l : list A) body :
  (∀ x, kq (body x)) → kq (for_each l body).
Proof.
  intros H. induction l as [|x l IH]; simpl; [done|]. by apply kq_bind.
Qed.

Ltac kq_step :=
  first
    [ apply kq_getitem | apply kq_as_int | apply kq_objects_get
    | apply kq_iterate | apply kq_call | apply kq_datetime_field
    | apply kq_bind; [|intros ?]
    | apply kq_try_except
    | apply kq_for_each; intros ?
    | by intros ? ].

Ltac kq_auto := repeat kq_step.

Lemma kq_mark_stream_messages_as_read ev : kq (mark_stream_messages_as_read C ev).
Proof. unfold mark_stream_messages_as_read. kq_auto. Qed.

Lemma kq_realm_export start ev : kq (realm_export C start ev).
Proof.
  unfold realm_export, realm_export_load, load_export_row. kq_auto.
  - case_bool_decide; kq_auto.
    destruct (extra_data _ !! _) as [[]|]; kq_auto.
  - case_bool_decide.
    + unfold realm_export_redelivered, timezone_now. kq_auto.
    + unfold realm_export_run. kq_auto.
      destruct a1; kq_auto. destruct (a.2.2); kq_auto.
Qed.

Lemma kq_reupload_realm_emoji ev : kq (reupload_realm_emoji C ev).
Proof. unfold reupload_realm_emoji. kq_auto. Qed.

Lemma kq_soft_reactivate ev : kq (soft_reactivate C ev).
Proof. unfold soft_reactivate. kq_auto. Qed.

Lemma kq_push_bouncer_update_for_realm ev : kq (push_bouncer_update_for_realm C ev).
Proof. unfold push_bouncer_update_for_realm. kq_auto. Qed.

(** X3: only mark_stream_messages_as_read_for_everyone and
    clear_push_device_tokens put events on the queue: an event of any
    other type, of an unknown type or without a type leaves the queue as
    it is, whether the handler returns or raises. *)
Theorem queue_untouched ev (w : World) :
  ev !! "type" ≠ Some everyone_type →
  ev !! "type" ≠ Some (VStr "clear_push_device_tokens") →
  queue (consume C MAX_REQUEST_RETRIES ev w).2 = queue w.
Proof.
  intros H1 H2. rewrite consume_by_dispatch.
  assert (Hd : queue (dispatch C MAX_REQUEST_RETRIES (wall w (wall_reads w)) ev
                        (tick_wall w)).2 = queue w).
  { destruct (ev !! "type") as [ty|] eqn:Hty.
    - rewrite (dispatch_routes _ _ _ _ _ _ Hty).
      destruct ty as [n|s|l|]; try done. unfold handler_of, handlers, lookup_handler.
      unfold everyone_type in H1.
      repeat (let Hs := fresh "Hs" in case_decide as Hs; [subst s|]); try done.
      + exact (kq_mark_stream_messages_as_read ev (tick_wall w)).
      + exact (kq_realm_export _ ev (tick_wall w)).
      + exact (kq_reupload_realm_emoji ev (tick_wall w)).
      + exact (kq_soft_reactivate ev (tick_wall w)).
      + exact (kq_push_bouncer_update_for_realm ev (tick_wall w)).
    - unfold dispatch, type_is, bind at 1 2, getitem at 1. by rewrite Hty. }
  destruct (dispatch _ _ _ _ _) as [[[|]|e|] w1]; simpl in *; try done.
  by destruct (ev !! "type").
Qed.

(** ** The export: the paths the state machine leaves out *)

Lemma foldr_max_ge (l : list Z) k : k ∈ l → k ≤ foldr Z.max 0 l.
Proof.
  induction l as [|x l IH]; [by intros ?%elem_of_nil|].
  intros [->|Hk]%elem_of_cons; simpl; [lia|]. specialize (IH Hk). lia.
Qed.

(** The id of a created row is not in the table. *)
Lemma next_id_fresh {A} (m : gmap Z A) : m !! next_id m = None.
Proof.
  destruct (m !! next_id m) as [x|] eqn:Hx; [|done].
  assert (next_id m ∈ map fst (map_to_list m)) as Hin.
  { apply list_elem_of_In, in_map_iff. exists (next_id m, x). split; [done|].
    by apply list_elem_of_In, elem_of_map_to_list. }
  apply foldr_max_ge in Hin. unfold next_id in Hin. lia.
Qed.

(** The field accepts the value or raises; it has no other effect. *)
Lemma datetime_field_cases v (w : World) :
  datetime_field C v w = (Ok tt, w) ∨ ∃ e, datetime_field C v w = (Raise e, w).
Proof.
  destruct v as [n|t|l|]; simpl; [|destruct (datetime_valid C t)|..]; eauto.
Qed.

Lemma load_legacy_row (ev : event) realm up (w : World) aid log time :
  ev !! "realm_export_id" = None →
  ev !! "id" = Some (VInt aid) →
  auditlogs (store w) !! aid = Some log →
  extra_data log !! "export_row_id" = None ∨ extra_data log !! "export_row_id" = Some VNull →
  ev !! "time" = Some time →
  datetime_field C time w = (Ok tt, w) →
  ∃ row w',
    load_export_row C ev realm up w = (Ok (row, Some aid), w')
    ∧ exports (store w) !! export_id row = None
    ∧ row = {| export_id := next_id (exports (store w)); export_realm := realm;
               export_kind := EXPORT_PUBLIC; acting_user := up;
               status := REQUESTED; date_requested := time; date_failed := None |}
    ∧ exports (store w') = <[export_id row := row]> (exports (store w))
    ∧ auditlogs (store w')
      = <[aid := {| extra_data := {["export_row_id" := VInt (export_id row)]} |}]>
          (auditlogs (store w))
    ∧ trace w' = trace w ∧ queue w' = queue w.
Proof.
  intros Hno Hid Hlog Hextra Htime Hfield.
  eexists _, _. split.
  { unfold load_export_row. rewrite bool_decide_eq_false_2 by (rewrite Hno; by intros []).
    unfold create_export_row.
    unfold bind, getitem, objects_get, as_int, get_store, bind, ret, modify_store.
    rewrite Hid. simpl. rewrite Hlog. simpl.
    destruct Hextra as [-> | ->]; rewrite Htime; simpl; rewrite Hfield; reflexivity. }
  simpl. split; [apply next_id_fresh|]. done.
Qed.

Lemma load_legacy_refused (ev : event) realm up (w : World) aid log time e :
  ev !! "realm_export_id" = None →
  ev !! "id" = Some (VInt aid) →
  auditlogs (store w) !! aid = Some log →
  extra_data log !! "export_row_id" = None ∨ extra_data log !! "export_row_id" = Some VNull →
  ev !! "time" = Some time →
  datetime_field C time w = (Raise e, w) →
  load_export_row C ev realm up w = (Raise e, w).
Proof.
  intros Hno Hid Hlog Hextra Htime Hfield.
  unfold load_export_row. rewrite bool_decide_eq_false_2 by (rewrite Hno; by intros []).
  unfold create_export_row.
  unfold bind, getitem, objects_get, as_int, get_store, bind, ret, modify_store.
  rewrite Hid. simpl. rewrite Hlog. simpl.
  destruct Hextra as [-> | ->]; rewrite Htime; simpl; rewrite Hfield; reflexivity.
Qed.

(** The export is called once on the loaded row when that row is
    REQUESTED, whatever the export and the steps after it do. *)
Lemma export_called_once ev (w : World) dir up row oe w1 :
  ev !! "type" = Some (VStr "realm_export") →
  realm_export_load C ev (tick_wall w) = (Ok (dir, up, (row, oe)), w1) →
  status row = REQUESTED →
  List.filter is_export_call (effects_since w (consume C MAX_REQUEST_RETRIES ev w).2)
  = [export_call C row dir].
Proof.
  intros Hty Hload Hst.
  destruct (realm_export_load_quiet _ _ _ _ _ Hload) as (new & Hnew & Hqu).
  simpl in Hnew. destruct (quiet_count _ Hqu) as (Hx0 & _).
  apply nil_length_inv in Hx0.
  rewrite consume_realm_export by done.
  unfold realm_export, bind at 1. rewrite Hload. simpl.
  rewrite bool_decide_eq_false_2 by (by intros ?).
  unfold realm_export_run, bind, try_except, call, logger_info, emit, time_time. simpl.
  destruct (export_realm_wrapper C _ _ _ _ _) as [s' [[]|e]]; simpl.
  - destruct oe as [aid|]; simpl; unfold modify_store, ret; simpl;
      destruct (get_system_bot C _ _ _) as [s'' [bot|e]]; simpl.
    all: erewrite (effects_since_app2 _ _ _ _ _ Hnew);
      [|simpl; rewrite <- ?app_assoc; reflexivity].
    all: by rewrite List.filter_app, Hx0.
  - destruct (is_Exception e); simpl.
    all: erewrite (effects_since_app2 _ _ _ _ _ Hnew);
      [|simpl; rewrite <- ?app_assoc; reflexivity].
    all: by rewrite List.filter_app, Hx0.
Qed.

(** X4: a legacy event, from before the RealmExport model, whose
    audit-log entry names no export row.  With a time the date field
    accepts, a REQUESTED row of the public type is created under an id
    that was free, for the realm and the user of the event, the audit-log
    entry is given the link to it, and the export is called once, on
    that row, whatever the export then does.  With any other time the
    creation raises (TypeError for a number or a list), the exception
    leaves [consume], no row is created, the entry is not linked and
    the export is not called. *)
Theorem legacy_event_creates_row ev (w : World) s1 dir uid s2 up aid log time :
  ev !! "type" = Some (VStr "realm_export") →
  mkdtemp C (store w) "zulip-export-" = (s1, Returns dir) →
  ev !! "user_profile_id" = Some uid →
  get_user_profile_by_id C s1 uid = (s2, Returns up) →
  ev !! "realm_export_id" = None →
  ev !! "id" = Some (VInt aid) →
  auditlogs s2 !! aid = Some log →
  extra_data log !! "export_row_id" = None ∨ extra_data log !! "export_row_id" = Some VNull →
  ev !! "time" = Some time →
  let row :=
    {| export_id := next_id (exports s2); export_realm := up_realm up;
       export_kind := EXPORT_PUBLIC; acting_user := up;
       status := REQUESTED; date_requested := time; date_failed := None |} in
  let r := consume C MAX_REQUEST_RETRIES ev w in
  let refused e :=
    r.1 = Raise e ∧ store r.2 = s2
    ∧ List.filter is_export_call (effects_since w r.2) = [] in
  let created :=
    exports s2 !! export_id row = None
    ∧ (∃ w1,
         realm_export_load C ev (tick_wall w) = (Ok (dir, up, (row, Some aid)), w1)
         ∧ exports (store w1) = <[export_id row := row]> (exports s2)
         ∧ auditlogs (store w1)
           = <[aid := {| extra_data := {["export_row_id" := VInt (export_id row)]} |}]>
               (auditlogs s2))
    ∧ List.filter is_export_call (effects_since w r.2) = [export_call C row dir] in
  match time with
  | VStr t =>
      if datetime_valid C t then created else refused (OtherException "ValidationError")
  | VNull => refused (OtherException "IntegrityError")
  | VInt _ | VList _ => refused TypeError
  end.
Proof.
  intros Hty Hmk Huid Hup Hno Hid Hlog Hextra Htime row r refused created.
  set (w0 := set_store (λ _, s2)
               (set_trace (λ t, t ++ [Call fn_get_user_profile_by_id [AVal uid]])
                  (set_store (λ _, s1)
                     (set_trace (λ t, t ++ [Call fn_mkdtemp [AStr "zulip-export-"]])
                        (tick_wall w))))).
  assert (Hpre : realm_export_load C ev (tick_wall w)
                 = match load_export_row C ev (up_realm up) up w0 with
                   | (Ok loaded, w1) => (Ok (dir, up, loaded), w1)
                   | (Raise e, w1) => (Raise e, w1)
                   | (OutOfFuel, w1) => (OutOfFuel, w1)
                   end).
  { unfold realm_export_load, bind at 1, call at 1. cbn [store set_trace tick_wall].
    rewrite Hmk. unfold bind at 1, getitem at 1. rewrite Huid. unfold ret at 1.
    unfold bind at 1, call at 1. cbn [store set_trace set_store]. rewrite Hup.
    unfold bind at 1. fold w0.
    by destruct (load_export_row C ev (up_realm up) up w0) as [[[]|e|] w1]. }
  assert (Hrefused : ∀ e, datetime_field C time w0 = (Raise e, w0) → refused e).
  { intros e Hfield. subst refused r. cbv beta.
    assert (Hc : consume C MAX_REQUEST_RETRIES ev w = (Raise e, w0)).
    { rewrite consume_realm_export by done.
      unfold realm_export, bind at 1. rewrite Hpre.
      by rewrite (load_legacy_refused ev _ _ w0 aid log time e). }
    rewrite Hc. cbn [fst snd]. split; [done|]. split; [done|].
    erewrite effects_since_app; [|simpl; rewrite <- ?app_assoc; reflexivity]. done. }
  assert (Hcreated : datetime_field C time w0 = (Ok tt, w0) → created).
  { intros Hfield. subst created r.
    destruct (load_legacy_row ev (up_realm up) up w0 aid log time)
      as (row' & w1 & Hl & Hfresh & Hrow & Hex & Hal & _); [done..|].
    fold row in Hrow. subst row'. rewrite Hl in Hpre.
    split; [exact Hfresh|]. split; [by exists w1|].
    by apply (export_called_once ev w dir up row (Some aid) w1). }
  destruct time as [n|t|l|]; [|simpl in Hcreated, Hrefused|..].
  - by apply Hrefused.
  - destruct (datetime_valid C t); [by apply Hcreated|by apply Hrefused].
  - by apply Hrefused.
  - by apply Hrefused.
Qed.

(** X5: the link is found again: once a legacy event has been loaded,
    loading it again gives the same row and changes nothing, so that a
    redelivered legacy event does not create a second row. *)
Theorem legacy_event_loaded_once (ev : event) realm up (w : World) aid log time :
  ev !! "realm_export_id" = None →
  ev !! "id" = Some (VInt aid) →
  auditlogs (store w) !! aid = Some log →
  extra_data log !! "export_row_id" = None ∨ extra_data log !! "export_row_id" = Some VNull →
  ev !! "time" = Some time →
  let first := load_export_row C ev realm up w in
  ∀ realm' up',
    load_export_row C ev realm' up' first.2 = (first.1, first.2).
Proof.
  intros Hno Hid Hlog Hextra Htime first realm' up'.
  destruct (datetime_field_cases time w) as [Hfield|[e Hfield]].
  - destruct (load_legacy_row ev realm up w aid log time)
      as (row & w' & Hl & _ & _ & Hex & Hal & _); [done..|].
    subst first. rewrite Hl. simpl.
    unfold load_export_row. rewrite bool_decide_eq_false_2 by (rewrite Hno; by intros []).
    unfold bind, getitem, objects_get, as_int, get_store, bind, ret.
    rewrite Hid. simpl. rewrite Hal, lookup_insert_eq. simpl.
    rewrite lookup_singleton_eq. simpl.
    by rewrite Hex, lookup_insert_eq.
  - subst first. rewrite (load_legacy_refused ev realm up w aid log time e) by done.
    simpl. by apply (load_legacy_refused ev realm' up' w aid log time e).
Qed.

Lemma consume_export_succeeded ev (w : World) dir up row oe w1 s' s'' bot :
  ev !! "type" = Some (VStr "realm_export") →
  realm_export_load C ev (tick_wall w) = (Ok (dir, up, (row, oe)), w1) →
  status row = REQUESTED →
  export_realm_wrapper C (store w1) row dir (if threaded C then 1 else 6) true
  = (s', Returns tt) →
  get_system_bot C (without_legacy_entry oe s') (NOTIFICATION_BOT C)
    (realm_id (up_realm up))
  = (s'', Returns bot) →
  ∃ w',
    consume C MAX_REQUEST_RETRIES ev w = (Ok tt, w')
    ∧ store w' = s''
    ∧ queue w' = queue w1
    ∧ trace w'
      = trace w1
        ++ [starting_log up dir;
            export_call C row dir;
            Call fn_get_system_bot [AStr (NOTIFICATION_BOT C); AInt (realm_id (up_realm up))];
            SendPrivateMessage bot up (export_content C up);
            NotifyRealmExport (up_realm up);
            Log root_logger INFO "Completed data export for %s in %s"
              [AStr (string_id (up_realm up));
               ATime (wall w1 (wall_reads w1) - wall w (wall_reads w))%Q];
            completion_log (VStr "realm_export") (wall w (wall_reads w))
              (wall w1 (S (wall_reads w1)))].
Proof.
  intros Hty Hload Hst Hx Hbot. rewrite consume_realm_export by done.
  unfold realm_export, bind at 1. rewrite Hload. simpl.
  rewrite bool_decide_eq_false_2 by (by intros ?).
  unfold realm_export_run, bind, try_except, call, logger_info, emit. simpl.
  rewrite Hx. simpl.
  destruct oe as [aid|]; simpl in *; unfold modify_store, ret; simpl;
    rewrite Hbot; simpl.
  all: eexists; split; [done|]; simpl; repeat split; by rewrite <- !app_assoc.
Qed.


(** X7: a finished export of a legacy event deletes the audit-log entry the
    event refers to: with a bot lookup that leaves the store alone, the
    entry is gone afterwards, the other entries and the export rows are as
    the export left them. *)
Theorem legacy_entry_deleted ev (w : World) dir up row aid w1 s' bot :
  ev !! "type" = Some (VStr "realm_export") →
  realm_export_load C ev (tick_wall w) = (Ok (dir, up, (row, Some aid)), w1) →
  status row = REQUESTED →
  export_realm_wrapper C (store w1) row dir (if threaded C then 1 else 6) true
  = (s', Returns tt) →
  (∀ s, (get_system_bot C s (NOTIFICATION_BOT C) (realm_id (up_realm up))).1 = s) →
  (get_system_bot C (without_legacy_entry (Some aid) s') (NOTIFICATION_BOT C)
     (realm_id (up_realm up))).2 = Returns bot →
  let w' := (consume C MAX_REQUEST_RETRIES ev w).2 in
  (consume C MAX_REQUEST_RETRIES ev w).1 = Ok tt
  ∧ auditlogs (store w') !! aid = None
  ∧ (∀ k, k ≠ aid → auditlogs (store w') !! k = auditlogs s' !! k)
  ∧ exports (store w') = exports s'.
Proof.
  intros Hty Hload Hst Hx Hro Hbot w'. subst w'.
  destruct (get_system_bot C (without_legacy_entry (Some aid) s') (NOTIFICATION_BOT C)
              (realm_id (up_realm up))) as [s'' r] eqn:Hb.
  pose proof (Hro (without_legacy_entry (Some aid) s')) as Hs''.
  rewrite Hb in Hs''. simpl in Hs'', Hbot. subst s'' r.
  destruct (consume_export_succeeded _ _ _ _ _ _ _ _ _ _ Hty Hload Hst Hx Hb)
    as (w' & Hc & Hs & _).
  rewrite Hc. simpl. rewrite Hs. simpl.
  split; [done|]. split; [apply lookup_delete_eq|]. split; [|done].
  intros k Hk. by apply lookup_delete_ne.
Qed.

(** X8: an exception of the export that does not derive from Exception is
    not caught: it leaves [consume] as it was raised, with no failure log
    and no notification, and with the store as the export left it. *)
Theorem export_base_exception_propagates ev (w : World) dir up row oe w1 s' e :
  ev !! "type" = Some (VStr "realm_export") →
  realm_export_load C ev (tick_wall w) = (Ok (dir, up, (row, oe)), w1) →
  status row = REQUESTED →
  export_realm_wrapper C (store w1) row dir (if threaded C then 1 else 6) true
  = (s', Raises e) →
  is_Exception e = false →
  ∃ w',
    consume C MAX_REQUEST_RETRIES ev w = (Raise e, w')
    ∧ store w' = s'
    ∧ queue w' = queue w1
    ∧ trace w' = trace w1 ++ [starting_log up dir; export_call C row dir]
    ∧ count is_observer_notification (effects_since w w') = 0%nat
    ∧ count is_actor_notification (effects_since w w') = 0%nat.
Proof.
  intros Hty Hload Hst Hx He. rewrite consume_realm_export by done.
  unfold realm_export, bind at 1. rewrite Hload. simpl.
  rewrite bool_decide_eq_false_2 by (by intros ?).
  unfold realm_export_run, bind, try_except, call, logger_info, emit. simpl.
  rewrite Hx. simpl. rewrite He. simpl.
  eexists. split; [done|]. simpl.
  assert (Ht : ∀ t : list effect,
             (t ++ [starting_log up dir]) ++ [export_call C row dir]
             = t ++ [starting_log up dir; export_call C row dir])
    by (intros; by rewrite <- app_assoc).
  split; [done|]. split; [done|]. split; [apply Ht|].
  destruct (realm_export_load_quiet _ _ _ _ _ Hload) as (new & Hnew & Hqu).
  simpl in Hnew. destruct (quiet_count _ Hqu) as (_ & Ho & Ha & _).
  unfold effects_since. simpl. rewrite Ht, Hnew, <- app_assoc, drop_app_length.
  fold (count is_observer_notification (new ++ [starting_log up dir; export_call C row dir])).
  fold (count is_actor_notification (new ++ [starting_log up dir; export_call C row dir])).
  by rewrite !count_app, Ho, Ha.
Qed.

(** X9: an event that refers to an export row that does not exist: the
    working directory has been made and the user looked up, then the
    lookup of the row raises DoesNotExist, which leaves [consume]; the
    export is not called and nobody is notified. *)
Theorem missing_export_row ev (w : World) s1 dir uid s2 up rid :
  ev !! "type" = Some (VStr "realm_export") →
  mkdtemp C (store w) "zulip-export-" = (s1, Returns dir) →
  ev !! "user_profile_id" = Some uid →
  get_user_profile_by_id C s1 uid = (s2, Returns up) →
  ev !! "realm_export_id" = Some (VInt rid) →
  exports s2 !! rid = None →
  ∃ w',
    consume C MAX_REQUEST_RETRIES ev w = (Raise (DoesNotExist "RealmExport"), w')
    ∧ store w' = s2
    ∧ queue w' = queue w
    ∧ trace w'
      = trace w ++ [Call fn_mkdtemp [AStr "zulip-export-"];
                    Call fn_get_user_profile_by_id [AVal uid]].
Proof.
  intros Hty Hmk Huid Hup Hrid Hrow. rewrite consume_realm_export by done.
  unfold realm_export, realm_export_load, load_export_row.
  rewrite bool_decide_eq_true_2 by (rewrite Hrid; eauto).
  unfold bind, call, getitem, objects_get, as_int, get_store, bind, ret. simpl.
  rewrite Hmk. simpl. rewrite Huid. simpl. rewrite Hup. simpl.
  rewrite Hrid. simpl. rewrite Hrow. simpl.
  eexists. split; [done|]. simpl. by rewrite <- app_assoc.
Qed.

Lemma everyone_batches ev (w : World) stream rid c0 :
  ev !! "type" = Some everyone_type →
  ev !! "stream_recipient_id" = Some (VInt rid) →
  streams (store w) !! rid = Some stream →
  start_cursor ev = VInt c0 →
  consume C MAX_REQUEST_RETRIES ev w = (Ok tt, everyone_world C ev w stream rid c0)
  ∧ batches_of (effects_since w (consume C MAX_REQUEST_RETRIES ev w).2)
    = (everyone_run ev w stream rid c0).1.1
  ∧ published_of (effects_since w (consume C MAX_REQUEST_RETRIES ev w).2)
    = match (everyone_run ev w stream rid c0).1.2 with
      | Some c => [continuation ev c]
      | None => []
      end.
Proof.
  intros Hty Hrid Hstream Hc0.
  rewrite (consume_everyone C MAX_REQUEST_RETRIES ev w stream rid c0) by done.
  destruct (everyone_world_facts C ev w stream rid c0) as (new & Ht & Hb & Hp & _).
  cbv zeta in *. simpl snd. by rewrite (effects_since_app _ _ _ Ht).
Qed.


(** X11: once an invocation has finished the stream (it put no continuation on
    the queue), a redelivery of the same event leaves the store as it is,
    whatever the clocks read. *)
Theorem redelivery_after_completion_is_noop ev (w : World) stream rid c0 (w2 : World) :
  ev !! "type" = Some everyone_type →
  ev !! "stream_recipient_id" = Some (VInt rid) →
  streams (store w) !! rid = Some stream →
  start_cursor ev = VInt c0 →
  let w1 := (consume C MAX_REQUEST_RETRIES ev w).2 in
  published_of (effects_since w w1) = [] →
  store w2 = store w1 →
  (consume C MAX_REQUEST_RETRIES ev w2).1 = Ok tt
  ∧ store (consume C MAX_REQUEST_RETRIES ev w2).2 = store w1.
Proof.
  intros Hty Hrid Hstream Hc0 w1 Hpub Hw2. subst w1.
  destruct (everyone_batches ev w stream rid c0) as (Hc & Hb & Hp); [done..|].
  rewrite Hp in Hpub. rewrite Hc in *. simpl snd in *.
  rewrite everyone_world_store in Hw2.
  destruct (everyone_run_facts ev w stream rid c0) as (_ & _ & _ & _ & Hk).
  cbv zeta in Hk.
  destruct ((everyone_run ev w stream rid c0).1.2) as [c|]; [done|].
  destruct Hk as (Hcat & _).
  set (T := target (store w) (stream_realm_id stream) rid) in *.
  set (ids := concat (everyone_run ev w stream rid c0).1.1) in *.
  assert (Hstream2 : streams (store w2) !! rid = Some stream) by (by rewrite Hw2).
  destruct (everyone_batches ev w2 stream rid c0) as (Hc2 & _); [done..|].
  rewrite Hc2. cbn [fst snd]. split; [done|].
  rewrite !everyone_world_store. fold ids.
  destruct (everyone_run_facts ev w2 stream rid c0) as (Hch2 & _).
  cbv zeta in Hch2.
  rewrite (target_ext (store w) (store w2)) in Hch2 by (by rewrite Hw2).
  fold T in Hch2. rewrite <- Hcat in Hch2.
  set (bs2 := (everyone_run ev w2 stream rid c0).1.1) in *.
  assert (Hsub : ∀ i, i ∈ concat bs2 → i ∈ ids).
  { intros i Hi. rewrite Hch2, concat_chunks in Hi. by apply subseteq_take in Hi. }
  clearbody bs2 ids. rewrite Hw2. unfold set_usermessages. simpl. f_equal.
  rewrite map_map. apply map_ext_in. intros um _.
  rewrite update_read_twice.
  destruct (decide (um_message_id um ∈ concat bs2)) as [Hin|Hout].
  - apply update_read_ext. rewrite elem_of_app. specialize (Hsub _ Hin). tauto.
  - apply update_read_ext. rewrite elem_of_app. tauto.
Qed.

(** X12: with the flag helpers of UserMessage in agreement, every row of a
    committed message has the read flag after the invocation. *)
Theorem committed_rows_are_read ev (w : World) stream rid c0 :
  flags_consistent C →
  ev !! "type" = Some everyone_type →
  ev !! "stream_recipient_id" = Some (VInt rid) →
  streams (store w) !! rid = Some stream →
  start_cursor ev = VInt c0 →
  let w' := (consume C MAX_REQUEST_RETRIES ev w).2 in
  let ids := concat (batches_of (effects_since w w')) in
  ∀ um', um' ∈ usermessages (store w') → um_message_id um' ∈ ids →
         has_read_flag C um'.
Proof.
  intros [(k & Hk & Hr) Hu] Hty Hrid Hstream Hc0 w' ids um' Hin Hid. subst ids w'.
  destruct (everyone_batches ev w stream rid c0) as (Hc & Hb & _); [done..|].
  rewrite Hb, Hc in *. simpl snd in *. rewrite everyone_world_store in Hin.
  set (ids := concat _) in *. clearbody ids.
  unfold set_usermessages in Hin. cbn [usermessages] in Hin.
  apply list_elem_of_In, in_map_iff in Hin as (um & <- & _).
  rewrite update_read_message in Hid.
  unfold has_read_flag, update_read. rewrite bool_decide_eq_true_2 by done. simpl.
  destruct (where_unread C um) eqn:Hun; simpl.
  - rewrite Hr. by apply lor_land_pow2.
  - rewrite Hu in Hun. apply Z.eqb_neq in Hun.
    rewrite Hr in *. by destruct (land_pow2 (um_flags um) k Hk).
Qed.

(** X13: the effects of one invocation, in full: the two logs of the branch
    around the batches and the continuation, then the completion record.
    No collaborator is called and nobody is notified; the count in the
    second log is the number of message ids committed. *)
Theorem everyone_effects ev (w : World) stream rid c0 :
  ev !! "type" = Some everyone_type →
  ev !! "stream_recipient_id" = Some (VInt rid) →
  streams (store w) !! rid = Some stream →
  start_cursor ev = VInt c0 →
  let w' := (consume C MAX_REQUEST_RETRIES ev w).2 in
  let bs := batches_of (effects_since w w') in
  effects_since w w'
  = marking_log rid
      :: (AtomicMarkRead <$> bs)
      ++ (Published "deferred_work" <$> published_of (effects_since w w'))
      ++ [marked_log (length (concat bs)) rid;
          completion_log everyone_type (wall w (wall_reads w)) (wall w (S (wall_reads w)))].
Proof.
  intros Hty Hrid Hstream Hc0 w' bs. subst bs w'.
  destruct (everyone_batches ev w stream rid c0) as (Hc & Hb & Hp); [done..|].
  rewrite Hb, Hp, Hc. cbn [snd].
  apply effects_since_app. unfold everyone_world, completed, after_batches.
  cbn [trace set_trace tick_wall tick_perf fst snd].
  destruct ((everyone_run ev w stream rid c0).1.2); simpl; by rewrite <- !app_assoc.
Qed.

(** ** Edges of the batch loop *)

(** X14: with a clock that never goes over the budget, one invocation commits
    every id beyond the cursor and puts nothing on the queue. *)
Theorem within_budget_finishes ev (w : World) stream rid c0 :
  ev !! "type" = Some everyone_type →
  ev !! "stream_recipient_id" = Some (VInt rid) →
  streams (store w) !! rid = Some stream →
  start_cursor ev = VInt c0 →
  (∀ j, over_budget (perf w (perf_reads w)) (perf w j) = false) →
  let w' := (consume C MAX_REQUEST_RETRIES ev w).2 in
  concat (batches_of (effects_since w w'))
  = filter (λ i, c0 < i) (target (store w) (stream_realm_id stream) rid)
  ∧ published_of (effects_since w w') = []
  ∧ queue w' = queue w.
Proof.
  intros Hty Hrid Hstream Hc0 Hclock w'. subst w'.
  destruct (everyone_batches ev w stream rid c0) as (Hc & Hb & Hp); [done..|].
  rewrite Hb, Hp, Hc. cbn [snd].
  destruct (everyone_world_facts C ev w stream rid c0) as (_ & _ & _ & _ & Hq & _).
  cbv zeta in Hq. rewrite Hq.
  destruct (everyone_run_facts ev w stream rid c0) as (_ & _ & _ & _ & Hk).
  cbv zeta in Hk.
  destruct ((everyone_run ev w stream rid c0).1.2) as [c|].
  - destruct Hk as (_ & _ & _ & Ho). by rewrite Hclock in Ho.
  - destruct Hk as (Hcat & _). simpl. by rewrite app_nil_r.
Qed.

(** X15: one invocation issues at least one query, and at most one more than
    the full batches the ids beyond the cursor make. *)
Theorem batch_count_bound ev (w : World) stream rid c0 :
  ev !! "type" = Some everyone_type →
  ev !! "stream_recipient_id" = Some (VInt rid) →
  streams (store w) !! rid = Some stream →
  start_cursor ev = VInt c0 →
  let w' := (consume C MAX_REQUEST_RETRIES ev w).2 in
  let bs := batches_of (effects_since w w') in
  let todo := filter (λ i, c0 < i) (target (store w) (stream_realm_id stream) rid) in
  (1 ≤ length bs)%nat
  ∧ ((length bs - 1) * batch_size ≤ length todo)%nat.
Proof.
  intros Hty Hrid Hstream Hc0 w' bs todo. subst bs w'.
  destruct (everyone_batches ev w stream rid c0) as (Hc & Hb & _); [done..|].
  rewrite Hb.
  destruct (everyone_run_facts ev w stream rid c0) as (Hch & Hne & Hfl & _).
  cbv zeta in *. fold todo in Hch.
  set (bs := (everyone_run ev w stream rid c0).1.1) in *.
  assert (1 ≤ length bs)%nat by (destruct bs; [done|simpl; lia]).
  split; [done|].
  apply length_concat_full in Hfl. rewrite length_take in Hfl.
  rewrite Nat.min_l in Hfl by lia.
  rewrite <- Hfl.
  rewrite Hch, length_chunks, take_chunks by lia.
  rewrite concat_chunks, length_take. lia.
Qed.

Lemma everyone_run_empty ev (w : World) stream rid c0 :
  filter (λ i, c0 < i) (target (store w) (stream_realm_id stream) rid) = [] →
  everyone_run ev w stream rid c0 = ([[]], None, S (perf_reads w)).
Proof.
  intros H. unfold everyone_run. rewrite H. apply run_last_batch; [|lia].
  unfold batch_size. simpl. lia.
Qed.

Lemma update_read_nil (ums : list UserMessage) : map (update_read C []) ums = ums.
Proof.
  induction ums as [|um ums IH]; [done|]. simpl.
  rewrite update_read_off by (by intros ?%elem_of_nil). by f_equal.
Qed.

(** X16: no message beyond the cursor: the invocation issues one query, which
    selects nothing, changes no row, logs a count of 0 and puts nothing on
    the queue, whatever the clock reads. *)
Theorem empty_target_one_empty_batch ev (w : World) stream rid c0 :
  ev !! "type" = Some everyone_type →
  ev !! "stream_recipient_id" = Some (VInt rid) →
  streams (store w) !! rid = Some stream →
  start_cursor ev = VInt c0 →
  filter (λ i, c0 < i) (target (store w) (stream_realm_id stream) rid) = [] →
  let w' := (consume C MAX_REQUEST_RETRIES ev w).2 in
  (consume C MAX_REQUEST_RETRIES ev w).1 = Ok tt
  ∧ effects_since w w'
    = [marking_log rid; AtomicMarkRead []; marked_log 0 rid;
       completion_log everyone_type (wall w (wall_reads w)) (wall w (S (wall_reads w)))]
  ∧ usermessages (store w') = usermessages (store w)
  ∧ queue w' = queue w.
Proof.
  intros Hty Hrid Hstream Hc0 Hempty w'. subst w'.
  destruct (everyone_batches ev w stream rid c0) as (Hc & _); [done..|].
  rewrite Hc. cbn [fst snd]. split; [done|].
  destruct (everyone_world_facts C ev w stream rid c0) as (_ & _ & _ & _ & Hq & _).
  cbv zeta in Hq. rewrite Hq, everyone_world_store.
  split; [|rewrite (everyone_run_empty ev w stream rid c0 Hempty); simpl;
           split; [apply update_read_nil|by rewrite app_nil_r]].
  apply effects_since_app. unfold everyone_world, completed, after_batches.
  rewrite (everyone_run_empty ev w stream rid c0 Hempty).
  cbn [trace set_trace tick_wall tick_perf fst snd]. simpl.
  by rewrite <- !app_assoc.
Qed.

(** X17: the budget can stop the loop right after the batch that took the last
    ids: the continuation is put on the queue all the same, and handling it
    costs one query that selects nothing. *)
Theorem continuation_with_nothing_left ev (w : World) stream rid c0 ev' (w2 : World) :
  ev !! "type" = Some everyone_type →
  ev !! "stream_recipient_id" = Some (VInt rid) →
  streams (store w) !! rid = Some stream →
  start_cursor ev = VInt c0 →
  let w1 := (consume C MAX_REQUEST_RETRIES ev w).2 in
  published_of (effects_since w w1) = [ev'] →
  concat (batches_of (effects_since w w1))
  = filter (λ i, c0 < i) (target (store w) (stream_realm_id stream) rid) →
  store w2 = store w1 →
  let w3 := (consume C MAX_REQUEST_RETRIES ev' w2).2 in
  (consume C MAX_REQUEST_RETRIES ev' w2).1 = Ok tt
  ∧ batches_of (effects_since w2 w3) = [[]]
  ∧ published_of (effects_since w2 w3) = []
  ∧ usermessages (store w3) = usermessages (store w2).
Proof.
  intros Hty Hrid Hstream Hc0 w1 Hpub Hall Hw2 w3. subst w3 w1.
  destruct (everyone_batches ev w stream rid c0) as (Hc & Hb & Hp); [done..|].
  rewrite Hp in Hpub. rewrite Hb in Hall. rewrite Hc in Hw2. cbn [snd] in Hw2.
  destruct (everyone_run_facts ev w stream rid c0) as (Hch & _ & _ & _ & Hk).
  cbv zeta in Hch, Hk.
  set (T := target (store w) (stream_realm_id stream) rid) in *.
  destruct ((everyone_run ev w stream rid c0).1.2) as [c|]; [|done].
  injection Hpub as <-. destruct Hk as (Hlast & _).
  rewrite everyone_world_store in Hw2.
  assert (Hnext : filter (λ i, c < i) (target (store w2) (stream_realm_id stream) rid) = []).
  { rewrite (target_ext (store w) (store w2)) by (by rewrite Hw2). fold T.
    rewrite Hall in Hlast.
    rewrite (filter_gt_next T (length (filter (λ i, c0 < i) T)) c0 c).
    - by rewrite drop_all.
    - apply (target_sorted (store w)).
    - by rewrite firstn_all. }
  assert (Hstream2 : streams (store w2) !! rid = Some stream) by (by rewrite Hw2).
  destruct (everyone_batches (continuation ev c) w2 stream rid c)
    as (Hc2 & Hb2 & Hp2);
    [by rewrite continuation_lookup_ne|by rewrite continuation_lookup_ne|done
    |apply start_cursor_continuation|].
  rewrite Hb2, Hp2, Hc2. cbn [fst snd].
  rewrite everyone_world_store.
  rewrite (everyone_run_empty (continuation ev c) w2 stream rid c Hnext). simpl.
  repeat split. apply update_read_nil.
Qed.

(** X18: an event for a stream that does not exist: the first log is written,
    then the lookup raises DoesNotExist, before any query or update. *)
Theorem missing_stream ev (w : World) rid :
  ev !! "type" = Some everyone_type →
  ev !! "stream_recipient_id" = Some (VInt rid) →
  streams (store w) !! rid = None →
  consume C MAX_REQUEST_RETRIES ev w
  = (Raise (DoesNotExist "Stream"),
     set_trace (λ t, t ++ [marking_log rid]) (tick_wall w)).
Proof.
  intros Hty Hrid Hstream. rewrite consume_by_dispatch.
  rewrite (dispatch_routes _ _ _ _ _ _ Hty). simpl.
  unfold mark_stream_messages_as_read_for_everyone.
  unfold getitem, logger_info, emit, objects_get, as_int, get_store, ret, bind.
  rewrite Hrid. simpl. by rewrite Hstream.
Qed.

(** ** mark_stream_messages_as_read *)

(** The body of the loop over the recipient ids. *)
Lemma mark_each up (l : list Z) :
  (∀ s r, r ∈ l → ∃ s' n, do_mark_stream_messages_as_read C s up (VInt r)
                           = (s', Returns n)) →
  ∀ w : World, ∃ w' new,
    for_each (VInt <$> l)
      (λ recipient_id,
         bind (call fn_do_mark_stream_messages_as_read
                 [AInt (up_id up); AVal recipient_id]
                 (λ s, do_mark_stream_messages_as_read C s up recipient_id))
           (λ count,
              logger_info "Marked %s messages as read for user %s, stream_recipient_id %s"
                [AInt count; AInt (up_id up); AVal recipient_id])) w
    = (Ok tt, w')
    ∧ trace w' = trace w ++ new
    ∧ List.filter is_mark_call new = mark_call up <$> l
    ∧ count is_log new = length l
    ∧ queue w' = queue w.
Proof.
  induction l as [|r l IH]; intros Hret w.
  { exists w, []. simpl. by rewrite app_nil_r. }
  destruct (Hret (store w) r) as (s' & n & Hr); [by left|].
  rewrite fmap_cons. cbn [for_each].
  unfold bind at 1. unfold bind at 1, call at 1. cbn [store set_trace].
  rewrite Hr. unfold logger_info at 1, emit at 1. cbn [fst snd].
  edestruct IH as (w' & new & Hf & Ht & Hc & Hl & Hq);
    [intros s0 r0 Hr0; apply Hret; by right|].
  rewrite Hf. eexists _, _. split; [done|].
  split; [rewrite Ht; simpl; by rewrite <- !app_assoc|].
  split; [simpl; by rewrite Hc|].
  split; [|by rewrite Hq].
  unfold count in *. simpl. by rewrite Hl.
Qed.

Lemma bind_ok {A B} (c : M A) (k : A → M B) (w : World) a w1 :
  c w = (Ok a, w1) → bind c k w = k a w1.
Proof. intros H. unfold bind. by rewrite H. Qed.

Lemma consume_mark_read ev (w : World) uid s1 up l :
  ev !! "type" = Some (VStr "mark_stream_messages_as_read") →
  ev !! "user_profile_id" = Some uid →
  get_user_profile_by_id C (store w) uid = (s1, Returns up) →
  ev !! "stream_recipient_ids" = Some (VList l) →
  let w0 :=
    set_trace
      (λ t, t ++ [Log module_logger INFO
                    "Marking messages as read for user %s, stream_recipient_ids %s"
                    [AInt (up_id up); AVal (VList l)]])
      (set_store (λ _, s1)
         (set_trace (λ t, t ++ [Call fn_get_user_profile_by_id [AVal uid]]) (tick_wall w))) in
  consume C MAX_REQUEST_RETRIES ev w
  = match for_each (VInt <$> l)
            (λ recipient_id,
               bind (call fn_do_mark_stream_messages_as_read
                       [AInt (up_id up); AVal recipient_id]
                       (λ s, do_mark_stream_messages_as_read C s up recipient_id))
                 (λ count,
                    logger_info
                      "Marked %s messages as read for user %s, stream_recipient_id %s"
                      [AInt count; AInt (up_id up); AVal recipient_id])) w0 with
    | (Ok _, w1) =>
        (Ok tt, completed (VStr "mark_stream_messages_as_read") (wall w (wall_reads w)) w1)
    | (Raise e, w1) => (Raise e, w1)
    | (OutOfFuel, w1) => (OutOfFuel, w1)
    end.
Proof.
  intros Hty Huid Hup Hl w0. rewrite consume_by_dispatch.
  rewrite (dispatch_routes _ _ _ _ _ _ Hty). simpl.
  unfold mark_stream_messages_as_read.
  erewrite bind_ok; [|unfold getitem; rewrite Huid; reflexivity].
  erewrite bind_ok; [|unfold call; cbn [store set_trace tick_wall]; rewrite Hup; reflexivity].
  erewrite bind_ok; [|unfold getitem; rewrite Hl; reflexivity].
  erewrite bind_ok; [|reflexivity].
  erewrite bind_ok; [|unfold getitem; rewrite Hl; reflexivity].
  erewrite bind_ok; [|reflexivity].
  unfold bind at 1. fold w0.
  destruct (for_each _ _ w0) as [[[]|e|] w1]; [|done..].
  unfold ret. by rewrite Hty.
Qed.

(** X19: a mark_stream_messages_as_read event whose calls all return: the
    business operation is called once for every recipient id of the event,
    in the order of the event, for the user of the event; a count is
    logged after each call; nothing is put on the queue.  An empty list
    gives no call. *)
Theorem mark_read_calls_each ev (w : World) uid s1 up l :
  ev !! "type" = Some (VStr "mark_stream_messages_as_read") →
  ev !! "user_profile_id" = Some uid →
  get_user_profile_by_id C (store w) uid = (s1, Returns up) →
  ev !! "stream_recipient_ids" = Some (VList l) →
  (∀ s r, r ∈ l → ∃ s' n, do_mark_stream_messages_as_read C s up (VInt r)
                           = (s', Returns n)) →
  let w' := (consume C MAX_REQUEST_RETRIES ev w).2 in
  (consume C MAX_REQUEST_RETRIES ev w).1 = Ok tt
  ∧ List.filter is_mark_call (effects_since w w') = mark_call up <$> l
  ∧ count is_log (effects_since w w') = (2 + length l)%nat
  ∧ queue w' = queue w.
Proof.
  intros Hty Huid Hup Hl Hret w'. subst w'.
  rewrite (consume_mark_read ev w uid s1 up l) by done. cbv zeta.
  edestruct (mark_each up l Hret) as (w1 & new & Hf & Ht & Hc & Hn & Hq).
  rewrite Hf. cbn [fst snd]. split; [done|].
  rewrite (effects_since_app w _
             ([Call fn_get_user_profile_by_id [AVal uid];
               Log module_logger INFO
                 "Marking messages as read for user %s, stream_recipient_ids %s"
                 [AInt (up_id up); AVal (VList l)]]
              ++ new
              ++ [completion_log (VStr "mark_stream_messages_as_read")
                    (wall w (wall_reads w)) (wall w1 (wall_reads w1))])).
  2: { unfold completed. cbn [trace set_trace tick_wall]. rewrite Ht. simpl.
       by rewrite <- !app_assoc. }
  split; [|split].
  - rewrite !List.filter_app, Hc. simpl. by rewrite app_nil_r.
  - rewrite !count_app, Hn. unfold count. simpl. lia.
  - unfold completed. cbn [queue set_trace tick_wall]. by rewrite Hq.
Qed.

Lemma for_each_app {A} (l1 l2 : list A) (body : A → M unit) (w : World) :
  for_each (l1 ++ l2) body w = bind (for_each l1 body) (λ _, for_each l2 body) w.
Proof.
  revert w. induction l1 as [|x l1 IH]; intros w; [done|].
  simpl. unfold bind. destruct (body x w) as [[[]|e|] w1]; [|done..].
  rewrite IH. reflexivity.
Qed.

(** X20: the loop stops at the first call that raises: the exception leaves
    [consume], the recipient ids after it are not processed, and no
    completion record is written. *)
Theorem mark_read_stops_at_failure ev (w : World) uid s1 up l1 r l2 e :
  ev !! "type" = Some (VStr "mark_stream_messages_as_read") →
  ev !! "user_profile_id" = Some uid →
  get_user_profile_by_id C (store w) uid = (s1, Returns up) →
  ev !! "stream_recipient_ids" = Some (VList (l1 ++ r :: l2)) →
  (∀ s r', r' ∈ l1 → ∃ s' n, do_mark_stream_messages_as_read C s up (VInt r')
                              = (s', Returns n)) →
  (∀ s, (do_mark_stream_messages_as_read C s up (VInt r)).2 = Raises e) →
  let w' := (consume C MAX_REQUEST_RETRIES ev w).2 in
  (consume C MAX_REQUEST_RETRIES ev w).1 = Raise e
  ∧ count is_completion_log (effects_since w w') = 0%nat
  ∧ List.filter is_mark_call (effects_since w w') = mark_call up <$> (l1 ++ [r]).
Proof.
  intros Hty Huid Hup Hl Hret Hraise w'. subst w'.
  assert (Hres : (consume C MAX_REQUEST_RETRIES ev w).1 = Raise e
                 → count is_completion_log
                     (effects_since w (consume C MAX_REQUEST_RETRIES ev w).2) = 0%nat)
    by apply raise_no_completion_log.
  revert Hres.
  rewrite (consume_mark_read ev w uid s1 up (l1 ++ r :: l2)) by done. cbv zeta.
  rewrite fmap_app, for_each_app.
  edestruct (mark_each up l1 Hret) as (w1 & new & Hf & Ht & Hc & Hn & Hq).
  erewrite bind_ok by exact Hf.
  rewrite fmap_cons. cbn [for_each].
  specialize (Hraise (store w1)).
  destruct (do_mark_stream_messages_as_read C (store w1) up (VInt r)) as [s' o] eqn:Hdo.
  simpl in Hraise. subst o.
  match goal with
  | |- context [bind (bind ?c ?k1) ?k2 w1] =>
      assert (Hstep : bind (bind c k1) k2 w1
                      = (Raise e, set_store (λ _, s') (set_trace (λ t, t ++ [mark_call up r]) w1)))
        by (unfold bind, call; cbn [store set_trace]; rewrite Hdo; reflexivity);
      rewrite Hstep; clear Hstep
  end.
  cbn [fst snd]. intros Hres.
  split; [done|]. split; [by apply Hres|].
  rewrite (effects_since_app w _
             ([Call fn_get_user_profile_by_id [AVal uid];
               Log module_logger INFO
                 "Marking messages as read for user %s, stream_recipient_ids %s"
                 [AInt (up_id up); AVal (VList (l1 ++ r :: l2))]]
              ++ new ++ [mark_call up r])).
  2: { cbn [trace set_trace set_store]. rewrite Ht. simpl. by rewrite <- !app_assoc. }
  rewrite !List.filter_app, Hc, fmap_app. done.
Qed.

(** ** The branches without a handler of their own for failures *)

(** X21: an event without a type: the first comparison raises KeyError, after
    the clock has been read and before anything else is done. *)
Theorem event_without_type ev (w : World) :
  ev !! "type" = None →
  consume C MAX_REQUEST_RETRIES ev w = (Raise (KeyError "type"), tick_wall w).
Proof.
  intros Hty. rewrite consume_by_dispatch.
  unfold dispatch, type_is, bind at 1 2, getitem at 1. by rewrite Hty.
Qed.

(** X22: only the clear_push_device_tokens branch retries: in the
    push_bouncer_update_for_realm branch an exception of the bouncer, the
    transient one included, leaves [consume] as it was raised; nothing is
    put on the queue and no completion record is written. *)
Theorem bouncer_update_error_not_retried ev (w : World) rid s' e :
  ev !! "type" = Some (VStr "push_bouncer_update_for_realm") →
  ev !! "realm_id" = Some rid →
  send_server_data_to_push_bouncer C (store w) false = (s', Raises e) →
  consume C MAX_REQUEST_RETRIES ev w
  = (Raise e,
     set_store (λ _, s')
       (set_trace
          (λ t, t ++ [Log module_logger INFO
                        "Updating push bouncer with metadata on behalf of realm %s"
                        [AVal rid];
                      Call fn_send_server_data_to_push_bouncer []])
          (tick_wall w)))
  ∧ queue (consume C MAX_REQUEST_RETRIES ev w).2 = queue w.
Proof.
  intros Hty Hrid Hx. rewrite consume_by_dispatch.
  rewrite (dispatch_routes _ _ _ _ _ _ Hty). simpl.
  unfold push_bouncer_update_for_realm.
  unfold getitem, logger_info, emit, call, ret, bind. rewrite Hrid. simpl.
  rewrite Hx. simpl. split; [|done].
  unfold set_store, set_trace. simpl. by rewrite <- app_assoc.
Qed.

(** X23: a clear_push_device_tokens event whose call returns: nothing is put
    on the queue, the event is not retried and the terminal-failure
    handler is not invoked, on whatever attempt the event is. *)
Theorem clear_tokens_success_no_retry ev uid (w : World) s' :
  ev !! "type" = Some (VStr "clear_push_device_tokens") →
  ev !! "user_profile_id" = Some uid →
  clear_push_device_tokens C (store w) uid = (s', Returns tt) →
  let r := consume C MAX_REQUEST_RETRIES ev w in
  r.1 = Ok tt
  ∧ store r.2 = s'
  ∧ queue r.2 = queue w
  ∧ effects_since w r.2
    = [Log module_logger INFO "Clearing push device tokens for user_profile_id %s"
         [AVal uid];
       Call fn_clear_push_device_tokens [AVal uid];
       completion_log (VStr "clear_push_device_tokens") (wall w (wall_reads w))
         (wall w (S (wall_reads w)))].
Proof.
  intros Hty Huid Hx r. subst r.
  rewrite (consume_clear_tokens C MAX_REQUEST_RETRIES ev uid w Hty Huid). cbv zeta.
  rewrite Hx. cbn [fst snd]. repeat split.
  apply effects_since_app. unfold completed. simpl. by rewrite <- !app_assoc.
Qed.

(** X24: a soft_reactivate event for a user that cannot be loaded: the start
    is logged before the lookup, the exception of the lookup leaves
    [consume], and the reactivation is not called. *)
Theorem soft_reactivate_unknown_user ev (w : World) uid s' e :
  ev !! "type" = Some (VStr "soft_reactivate") →
  ev !! "user_profile_id" = Some uid →
  get_user_profile_by_id C (store w) uid = (s', Raises e) →
  consume C MAX_REQUEST_RETRIES ev w
  = (Raise e,
     set_store (λ _, s')
       (set_trace
          (λ t, t ++ [Log module_logger INFO
                        "Starting soft reactivation for user_profile_id %s" [AVal uid];
                      Call fn_get_user_profile_by_id [AVal uid]])
          (tick_wall w))).
Proof.
  intros Hty Huid Hx. rewrite consume_by_dispatch.
  rewrite (dispatch_routes _ _ _ _ _ _ Hty). simpl.
  unfold soft_reactivate.
  unfold getitem, logger_info, emit, call, ret, bind. rewrite Huid. simpl.
  rewrite Hx. simpl.
  unfold set_store, set_trace. simpl. by rewrite <- app_assoc.
Qed.

(** X25: a soft_reactivate event for a user that is loaded: the reactivation
    is called once, for that user and on the store the lookup left, and
    its result, returned or raised, is the result of [consume]; the
    completion record is written only when it returns. *)
Theorem soft_reactivate_calls_once ev (w : World) uid s1 up s2 o :
  ev !! "type" = Some (VStr "soft_reactivate") →
  ev !! "user_profile_id" = Some uid →
  get_user_profile_by_id C (store w) uid = (s1, Returns up) →
  reactivate_user_if_soft_deactivated C s1 up = (s2, o) →
  let r := consume C MAX_REQUEST_RETRIES ev w in
  let called :=
    [Log module_logger INFO "Starting soft reactivation for user_profile_id %s" [AVal uid];
     Call fn_get_user_profile_by_id [AVal uid];
     Call fn_reactivate_user_if_soft_deactivated [AInt (up_id up)]] in
  store r.2 = s2
  ∧ queue r.2 = queue w
  ∧ match o with
    | Returns _ =>
        r.1 = Ok tt
        ∧ effects_since w r.2
          = called ++ [completion_log (VStr "soft_reactivate") (wall w (wall_reads w))
                         (wall w (S (wall_reads w)))]
    | Raises e => r.1 = Raise e ∧ effects_since w r.2 = called
    end.
Proof.
  intros Hty Huid Hup Hx r called. subst r called. rewrite consume_by_dispatch.
  rewrite (dispatch_routes _ _ _ _ _ _ Hty). simpl.
  unfold soft_reactivate.
  unfold getitem, logger_info, emit, call, ret, bind. rewrite Huid. simpl.
  rewrite Hup. simpl. rewrite Hx.
  destruct o as [[]|e]; simpl; rewrite ?Hty; simpl; repeat split;
    apply effects_since_app; simpl; by rewrite <- !app_assoc.
Qed.

(** X26: a reupload_realm_emoji event: the realm is loaded from the table
    before anything is logged, so that an id without a row raises
    DoesNotExist with no effect at all; with a row, the handler of the
    migration is called once with that row. *)
Theorem reupload_emoji_loads_realm ev (w : World) rid :
  ev !! "type" = Some (VStr "reupload_realm_emoji") →
  ev !! "realm_id" = Some (VInt rid) →
  let r := consume C MAX_REQUEST_RETRIES ev w in
  match realms (store w) !! rid with
  | None => r = (Raise (DoesNotExist "Realm"), tick_wall w)
  | Some realm =>
      store r.2 = (handle_reupload_emojis_event C (store w) realm).1
      ∧ queue r.2 = queue w
      ∧ List.filter is_call (effects_since w r.2)
        = [Call fn_handle_reupload_emojis_event [AInt (realm_id realm)]]
      ∧ (r.1 = Ok tt ↔ ∃ u, (handle_reupload_emojis_event C (store w) realm).2 = Returns u)
  end.
Proof.
  intros Hty Hrid r. subst r. rewrite consume_by_dispatch.
  rewrite (dispatch_routes _ _ _ _ _ _ Hty). simpl.
  unfold reupload_realm_emoji.
  unfold getitem, objects_get, as_int, get_store, logger_info, emit, call, ret, bind.
  rewrite Hrid. simpl.
  destruct (realms (store w) !! rid) as [realm|] eqn:Hr; simpl; [|done].
  destruct (handle_reupload_emojis_event C (store w) realm) as [s' [[]|e]] eqn:Hx;
    simpl; rewrite ?Hty; simpl.
  - repeat split; [|by eauto].
    erewrite effects_since_app; [|simpl; by rewrite <- !app_assoc]. 
    done.
  - repeat split; [|done|by intros [? ?]].
    erewrite effects_since_app; [|simpl; by rewrite <- !app_assoc]. done.
Qed.

End Further.

(** * The statements at concrete inputs *)

Import Examples.

(** C1: a COMPLETED record is moved to FAILED by a redelivered event, so
    that the terminal states are not absorbing. *)
Lemma completed_export_not_absorbing :
  ¬ terminal_states_absorbing (collab (Returns tt) (Returns tt)) 3 export_event
      (world1 COMPLETED 0 quiet_clock).
Proof.
  intros H. specialize (H 1 (export_row1 COMPLETED) eq_refl eq_refl).
  vm_compute in H. discriminate H.
Qed.

Lemma redelivered_export_marked_failed_witness :
  let C := collab (Returns tt) (Returns tt) in
  let w := world1 FAILED 0 quiet_clock in
  let w' := (consume C 3 export_event w).2 in
  (consume C 3 export_event w).1 = Ok tt
  ∧ count is_export_call (effects_since w w') = 0%nat
  ∧ exports (store w') !! 1 = Some (set_failed 1%Q (export_row1 FAILED))
  ∧ failure_recorded w' 1
  ∧ count is_observer_notification (effects_since w w') = 1%nat
  ∧ (status (export_row1 FAILED) = FAILED →
     status <$> exports (store w') !! 1 = Some (status (export_row1 FAILED))).
Proof.
  intros C w.
  apply (redelivered_export_marked_failed C 3 export_event w
           "zulip-export-abc" user1 (export_row1 FAILED) None
           (realm_export_load C export_event (tick_wall w)).2);
    reflexivity.
Defined.

(** C2: an export that raises without touching the record leaves it in
    REQUESTED, with no failure timestamp, although the handler caught the
    exception and returned. *)
Lemma export_exception_status_not_written :
  let C := collab (Raises (OtherException "MemoryError")) (Returns tt) in
  let w := world1 REQUESTED 0 quiet_clock in
  (consume C 3 export_event w).1 = Ok tt
  ∧ count is_export_call (effects_since w (consume C 3 export_event w).2) = 1%nat
  ∧ exports (store (consume C 3 export_event w).2) !! 1 = Some (export_row1 REQUESTED)
  ∧ ¬ failure_recorded (consume C 3 export_event w).2 1.
Proof.
  repeat split; try reflexivity.
  intros (r & t & Hr & Hst & _). vm_compute in Hr.
  injection Hr as <-. discriminate Hst.
Qed.

Lemma export_exception_caught_witness :
  let C := collab (Raises (OtherException "MemoryError")) (Returns tt) in
  let w := world1 REQUESTED 0 quiet_clock in
  ∃ w', consume C 3 export_event w = (Ok tt, w')
        ∧ store w' = store1 REQUESTED 0
        ∧ count is_observer_notification (effects_since w w') = 1%nat.
Proof.
  intros C w.
  destruct (export_exception_caught C 3 export_event w
              "zulip-export-abc" user1 (export_row1 REQUESTED) None
              (realm_export_load C export_event (tick_wall w)).2
              (store1 REQUESTED 0) (OtherException "MemoryError")
              eq_refl eq_refl eq_refl eq_refl eq_refl)
    as (w' & Hc & Hs & _ & _ & Hn).
  exists w'. auto.
Defined.



(** C4: the redelivery path of realm_export returns before the completion
    record. *)
Lemma redelivered_export_no_completion_log :
  let C := collab (Returns tt) (Returns tt) in
  let w := world1 FAILED 0 quiet_clock in
  (consume C 3 export_event w).1 = Ok tt
  ∧ ¬ has_completion_log (effects_since w (consume C 3 export_event w).2).
Proof.
  split; [reflexivity|]. unfold has_completion_log. rewrite Exists_exists.
  intros (e & Hin & He). vm_compute in Hin.
  repeat (apply elem_of_cons in Hin as [->|Hin]; [discriminate He|]).
  by apply elem_of_nil in Hin.
Qed.

Lemma consume_completion_log_witness :
  let C := collab (Returns tt) (Returns tt) in
  let w := world1 REQUESTED 0 quiet_clock in
  ∃ ty,
    clear_event !! "type" = Some ty
    ∧ consume C 3 clear_event w
      = (Ok tt, completed ty 0%Q (dispatch C 3 0%Q clear_event (tick_wall w)).2)
    ∧ count is_completion_log (effects_since w (consume C 3 clear_event w).2) = 1%nat.
Proof.
  intros C w.
  exact (consume_completion_log C 3 clear_event w
           (dispatch C 3 0%Q clear_event (tick_wall w)).2 eq_refl).
Defined.

Lemma dispatch_one_handler_witness :
  let C := collab (Returns tt) (Returns tt) in
  let w := world1 REQUESTED 0 quiet_clock in
  NoDup (known_types C 3)
  ∧ dispatch C 3 0%Q unknown_event w = (Ok Fallthrough, w)
  ∧ consume C 3 unknown_event w
    = (Ok tt,
       set_trace
         (λ t, t ++ [completion_log (VStr "send_confirmation_email") 0%Q 1%Q])
         (tick_wall (tick_wall w))).
Proof.
  intros C w.
  exact (dispatch_one_handler C 3 0%Q unknown_event w
           (VStr "send_confirmation_email") eq_refl).
Defined.

Lemma clear_tokens_retry_policy_witness :
  let C := collab (Returns tt) (Raises PushNotificationBouncerRetryLaterError) in
  let w := world1 REQUESTED 0 quiet_clock in
  let r := consume C 3 clear_event w in
  r.1 = Ok tt
  ∧ queue r.2 = [retry_envelope 1 clear_event]
  ∧ count is_max_retries_warning (effects_since w r.2) = 0%nat.
Proof.
  intros C w.
  destruct (clear_tokens_retry_policy C 3 clear_event (VInt 7) w
              (store1 REQUESTED 0) PushNotificationBouncerRetryLaterError
              eq_refl eq_refl eq_refl)
    as (_ & (H1 & _ & H2 & H3) & _).
  exact (conj H1 (conj H2 H3)).
Defined.

Lemma budget_after_two_batches_witness :
  let C := collab (Returns tt) (Returns tt) in
  let w := world1 REQUESTED 120 two_batch_clock in
  let w1 := (consume C 3 everyone_event w).2 in
  ∃ c,
    target (store w) 1 9 !! 99%nat = Some c
    ∧ length <$> batches_of (effects_since w w1) = [50; 50]%nat
    ∧ published_of (effects_since w w1) = [continuation everyone_event c]
    ∧ marked_read C (take 100 (target (store w) 1 9)) (store w) (store w1)
    ∧ let w2 := deliver {| env_queue := "deferred_work"; env_attempts := 0;
                           env_event := continuation everyone_event c |} [] w1 in
      let r := consume C 3 (continuation everyone_event c) w2 in
      batches_of (effects_since w2 r.2) = [drop 100 (target (store w) 1 9)]
      ∧ published_of (effects_since w2 r.2) = []
      ∧ marked_read C (target (store w) 1 9) (store w) (store r.2)
      ∧ ∀ um', um' ∈ usermessages (store r.2) →
               um_message_id um' ∈ target (store w) 1 9 → has_read_flag C um'.
Proof.
  intros C w w1.
  destruct (budget_after_two_batches C 3 everyone_event w stream1 9)
    as (c & Hc & _ & Hb & _ & _ & Hp & _ & Hm1 & _ & Hb2 & _ & Hp2 & _ & _ & Hm2 & Hread);
    [reflexivity | reflexivity | reflexivity | reflexivity | reflexivity
    | by vm_compute | by apply (bool_decide_unpack _); vm_compute
    | by vm_compute | by vm_compute |].
  exists c. split; [exact Hc|].
  split; [fold w1 in Hb; rewrite Hb; by vm_compute|].
  split; [exact Hp|]. split; [exact Hm1|].
  split; [exact Hb2|]. split; [exact Hp2|]. split; [exact Hm2|].
  apply Hread.
  split; [exists 0; split; [lia|reflexivity]|intros um; reflexivity].
Defined.

Lemma continuation_differs_in_cursor_only_witness :
  let C := collab (Returns tt) (Returns tt) in
  let w := world1 REQUESTED 120 two_batch_clock in
  let w' := (consume C 3 everyone_event w).2 in
  ∃ ev' c,
    published_of (effects_since w w') = [ev']
    ∧ last (concat (batches_of (effects_since w w'))) = Some c
    ∧ ev' !! "min_id" = Some (VInt c)
    ∧ ∀ k, k ≠ "min_id" → ev' !! k = everyone_event !! k.
Proof.
  intros C w w'.
  pose proof (continuation_differs_in_cursor_only C 3 everyone_event w stream1 9 0
                eq_refl eq_refl eq_refl eq_refl) as H.
  cbv zeta in H. fold w' in H.
  replace (over_budget (perf w (perf_reads w)) (perf w (perf_reads w' - 1)%nat))
    with true in H by (by vm_compute).
  destruct H as (ev' & c & H1 & _ & H2 & H3 & H4).
  exists ev', c. auto.
Defined.

Lemma cursor_monotonic_and_covering_witness :
  let C := collab (Returns tt) (Returns tt) in
  let w := set_queue (λ _, [everyone_envelope]) (world1 REQUESTED 120 two_batch_clock) in
  ∃ w',
    worker_loop C 3 121 w = (Ok tt, w')
    ∧ queue w' = []
    ∧ StronglySorted Z.lt (0 :: published_cursors (effects_since w w'))
    ∧ concat (batches_of (effects_since w w')) = target (store w) 1 9.
Proof.
  intros C w.
  destruct (cursor_monotonic_and_covering C 3 everyone_event w stream1 9 0
              everyone_envelope 121)
    as (w' & Hl & Hq & _ & _ & Hs & _ & _ & _ & Hall);
    [reflexivity | reflexivity | reflexivity | reflexivity | reflexivity | reflexivity
    | by vm_compute |].
  exists w'. split; [exact Hl|]. split; [exact Hq|]. split; [exact Hs|].
  apply Hall; [reflexivity|]. by apply (bool_decide_unpack _); vm_compute.
Defined.

Lemma first_batch_from_cursor_witness :
  let C := collab (Returns tt) (Returns tt) in
  let w := world1 REQUESTED 120 two_batch_clock in
  let bs := batches_of (effects_since w (consume C 3 everyone_event w).2) in
  head bs = Some (take batch_size (target (store w) 1 9))
  ∧ Forall (λ i, 0 < i) (concat bs).
Proof.
  intros C w bs.
  destruct (first_batch_from_cursor C 3 everyone_event w stream1 9 0
              eq_refl eq_refl eq_refl eq_refl)
    as (_ & _ & _ & Hall & Hhead).
  split; [|exact Hall].
  apply Hhead; [reflexivity|]. by apply (bool_decide_unpack _); vm_compute.
Defined.

(** ** The further properties at concrete inputs *)

Lemma raised_without_completion_log_witness :
  let C := collab (Returns tt) (Returns tt) in
  let w := world1 REQUESTED 0 quiet_clock in
  (consume C 3 (reactivate_event 8) w).1 = Raise (DoesNotExist "UserProfile")
  ∧ count is_completion_log (effects_since w (consume C 3 (reactivate_event 8) w).2) = 0%nat.
Proof.
  intros C w. split; [reflexivity|].
  apply (raised_without_completion_log C 3 (reactivate_event 8) w
           (DoesNotExist "UserProfile")).
  reflexivity.
Defined.

Lemma queue_untouched_witness :
  let C := collab (Returns tt) (Returns tt) in
  let w := set_queue (λ _, [everyone_envelope]) (world1 REQUESTED 0 quiet_clock) in
  queue (consume C 3 export_event w).2 = [everyone_envelope].
Proof.
  intros C w. apply (queue_untouched C 3 export_event w); by vm_compute.
Defined.

Lemma legacy_event_creates_row_witness :
  let C := collab (Returns tt) (Returns tt) in
  let r := consume C 3 legacy_event legacy_world in
  exports (store legacy_world) !! 2 = None
  ∧ (∃ w1,
       realm_export_load C legacy_event (tick_wall legacy_world)
       = (Ok ("zulip-export-abc", user1, (legacy_row, Some 5)), w1)
       ∧ exports (store w1) = <[2 := legacy_row]> (exports (store legacy_world))
       ∧ auditlogs (store w1)
         = <[5 := {| extra_data := {[ "export_row_id" := VInt 2 ]} |}]>
             (auditlogs (store legacy_world)))
  ∧ List.filter is_export_call (effects_since legacy_world r.2)
    = [export_call C legacy_row "zulip-export-abc"].
Proof.
  intros C r.
  exact (legacy_event_creates_row C 3 legacy_event legacy_world (store legacy_world)
           "zulip-export-abc" (VInt 7) (store legacy_world) user1 5 legacy_log
           (VStr "2023-04-05T06:07:08Z")
           eq_refl eq_refl eq_refl eq_refl eq_refl eq_refl eq_refl
           (or_introl eq_refl) eq_refl).
Defined.

Lemma legacy_event_loaded_once_witness :
  let C := collab (Returns tt) (Returns tt) in
  let first := load_export_row C legacy_event realm1 user1 legacy_world in
  first.1 = Ok (legacy_row, Some 5)
  ∧ load_export_row C legacy_event realm1 bot1 first.2 = (first.1, first.2).
Proof.
  intros C first. split; [reflexivity|].
  exact (legacy_event_loaded_once C legacy_event realm1 user1 legacy_world 5 legacy_log
           (VStr "2023-04-05T06:07:08Z") eq_refl eq_refl eq_refl (or_introl eq_refl)
           eq_refl realm1 bot1).
Defined.


Lemma legacy_entry_deleted_witness :
  let C := collab (Returns tt) (Returns tt) in
  let w' := (consume C 3 legacy_event legacy_world).2 in
  (consume C 3 legacy_event legacy_world).1 = Ok tt
  ∧ auditlogs (store w') !! 5 = None
  ∧ exports (store w') !! 2 = Some legacy_row.
Proof.
  intros C w'.
  destruct (legacy_entry_deleted C 3 legacy_event legacy_world
              "zulip-export-abc" user1 legacy_row 5
              (realm_export_load C legacy_event (tick_wall legacy_world)).2
              (store (realm_export_load C legacy_event (tick_wall legacy_world)).2) bot1
              eq_refl eq_refl eq_refl eq_refl (λ s, eq_refl) eq_refl)
    as (Hc & Ha & _ & Hex).
  split; [exact Hc|]. split; [exact Ha|].
  fold w' in Hex. rewrite Hex. reflexivity.
Defined.

Lemma export_base_exception_propagates_witness :
  let C := collab (Raises (NonException "KeyboardInterrupt")) (Returns tt) in
  let w := world1 REQUESTED 0 quiet_clock in
  ∃ w',
    consume C 3 export_event w = (Raise (NonException "KeyboardInterrupt"), w')
    ∧ count is_observer_notification (effects_since w w') = 0%nat
    ∧ count is_actor_notification (effects_since w w') = 0%nat.
Proof.
  intros C w.
  destruct (export_base_exception_propagates C 3 export_event w
              "zulip-export-abc" user1 (export_row1 REQUESTED) None
              (realm_export_load C export_event (tick_wall w)).2
              (store1 REQUESTED 0) (NonException "KeyboardInterrupt")
              eq_refl eq_refl eq_refl eq_refl eq_refl)
    as (w' & Hc & _ & _ & _ & Ho & Ha).
  exists w'. auto.
Defined.

Lemma missing_export_row_witness :
  let C := collab (Returns tt) (Returns tt) in
  let w := world1 REQUESTED 0 quiet_clock in
  ∃ w',
    consume C 3 missing_export_event w = (Raise (DoesNotExist "RealmExport"), w')
    ∧ store w' = store w
    ∧ trace w' = [Call fn_mkdtemp [AStr "zulip-export-"];
                  Call fn_get_user_profile_by_id [AVal (VInt 7)]].
Proof.
  intros C w.
  destruct (missing_export_row C 3 missing_export_event w (store w) "zulip-export-abc"
              (VInt 7) (store w) user1 5
              eq_refl eq_refl eq_refl eq_refl eq_refl eq_refl)
    as (w' & Hc & Hs & _ & Ht).
  exists w'. auto.
Defined.


Lemma redelivery_after_completion_is_noop_witness :
  let C := collab (Returns tt) (Returns tt) in
  let w := world1 REQUESTED 3 quiet_clock in
  let w1 := (consume C 3 everyone_event w).2 in
  (consume C 3 everyone_event w1).1 = Ok tt
  ∧ store (consume C 3 everyone_event w1).2 = store w1.
Proof.
  intros C w w1.
  apply (redelivery_after_completion_is_noop C 3 everyone_event w stream1 9 0 w1);
    reflexivity.
Defined.

Lemma committed_rows_are_read_witness :
  let C := collab (Returns tt) (Returns tt) in
  let w := world1 REQUESTED 3 quiet_clock in
  let w' := (consume C 3 everyone_event w).2 in
  flags_consistent C
  ∧ ∀ um', um' ∈ usermessages (store w') →
           um_message_id um' ∈ concat (batches_of (effects_since w w')) →
           has_read_flag C um'.
Proof.
  intros C w w'.
  assert (Hf : flags_consistent C).
  { split; [exists 0; split; [lia|reflexivity]|intros um; reflexivity]. }
  split; [exact Hf|].
  exact (committed_rows_are_read C 3 everyone_event w stream1 9 0 Hf
           eq_refl eq_refl eq_refl eq_refl).
Defined.

Lemma everyone_effects_witness :
  let C := collab (Returns tt) (Returns tt) in
  let w := world1 REQUESTED 3 quiet_clock in
  effects_since w (consume C 3 everyone_event w).2
  = [marking_log 9; AtomicMarkRead [1; 2; 3]; marked_log 3 9;
     completion_log everyone_type 0%Q 1%Q].
Proof.
  intros C w.
  rewrite (everyone_effects C 3 everyone_event w stream1 9 0
             eq_refl eq_refl eq_refl eq_refl).
  reflexivity.
Defined.

Lemma within_budget_finishes_witness :
  let C := collab (Returns tt) (Returns tt) in
  let w := world1 REQUESTED 120 quiet_clock in
  let w' := (consume C 3 everyone_event w).2 in
  concat (batches_of (effects_since w w')) = target (store w) 1 9
  ∧ published_of (effects_since w w') = []
  ∧ queue w' = [].
Proof.
  intros C w w'.
  destruct (within_budget_finishes C 3 everyone_event w stream1 9 0
              eq_refl eq_refl eq_refl eq_refl (λ j, eq_refl))
    as (Hall & Hp & Hq).
  split; [|split; [exact Hp|exact Hq]].
  fold w' in Hall. rewrite Hall. by vm_compute.
Defined.

Lemma batch_count_bound_witness :
  let C := collab (Returns tt) (Returns tt) in
  let w := world1 REQUESTED 120 two_batch_clock in
  let bs := batches_of (effects_since w (consume C 3 everyone_event w).2) in
  (1 ≤ length bs)%nat
  ∧ ((length bs - 1) * batch_size
     ≤ length (filter (λ i, (0 < i)%Z) (target (store w) 1 9)))%nat.
Proof.
  intros C w bs.
  exact (batch_count_bound C 3 everyone_event w stream1 9 0
           eq_refl eq_refl eq_refl eq_refl).
Defined.

Lemma empty_target_one_empty_batch_witness :
  let C := collab (Returns tt) (Returns tt) in
  let w := world1 REQUESTED 0 two_batch_clock in
  let w' := (consume C 3 everyone_event w).2 in
  (consume C 3 everyone_event w).1 = Ok tt
  ∧ effects_since w w'
    = [marking_log 9; AtomicMarkRead []; marked_log 0 9;
       completion_log everyone_type 0%Q 1%Q]
  ∧ usermessages (store w') = usermessages (store w)
  ∧ queue w' = [].
Proof.
  intros C w w'.
  exact (empty_target_one_empty_batch C 3 everyone_event w stream1 9 0
           eq_refl eq_refl eq_refl eq_refl eq_refl).
Defined.

Lemma continuation_with_nothing_left_witness :
  let C := collab (Returns tt) (Returns tt) in
  let w := world1 REQUESTED 100 two_batch_clock in
  let w1 := (consume C 3 everyone_event w).2 in
  let ev' := continuation everyone_event 100 in
  let w2 := (consume C 3 ev' w1).2 in
  published_of (effects_since w w1) = [ev']
  ∧ (consume C 3 ev' w1).1 = Ok tt
  ∧ batches_of (effects_since w1 w2) = [[]]
  ∧ published_of (effects_since w1 w2) = []
  ∧ usermessages (store w2) = usermessages (store w1).
Proof.
  intros C w w1 ev' w2.
  assert (Hp : published_of (effects_since w w1) = [ev']) by (vm_compute; reflexivity).
  split; [exact Hp|].
  apply (continuation_with_nothing_left C 3 everyone_event w stream1 9 0 ev' w1);
    [reflexivity | reflexivity | reflexivity | reflexivity | exact Hp
    | by vm_compute | reflexivity].
Defined.

Lemma missing_stream_witness :
  let C := collab (Returns tt) (Returns tt) in
  let w := world1 REQUESTED 3 quiet_clock in
  consume C 3 missing_stream_event w
  = (Raise (DoesNotExist "Stream"),
     set_trace (λ t, t ++ [marking_log 10]) (tick_wall w)).
Proof.
  intros C w.
  exact (missing_stream C 3 missing_stream_event w 10 eq_refl eq_refl eq_refl).
Defined.

Lemma mark_read_calls_each_witness :
  let C := collab (Returns tt) (Returns tt) in
  let w := world1 REQUESTED 0 quiet_clock in
  let w' := (consume C 3 mark_event w).2 in
  (consume C 3 mark_event w).1 = Ok tt
  ∧ List.filter is_mark_call (effects_since w w') = mark_call user1 <$> [9; 11; 12]
  ∧ count is_log (effects_since w w') = 5%nat
  ∧ queue w' = [].
Proof.
  intros C w w'.
  apply (mark_read_calls_each C 3 mark_event w (VInt 7) (store w) user1 [9; 11; 12]);
    [reflexivity | reflexivity | reflexivity | reflexivity |].
  intros s r _. by exists s, 0.
Defined.

Lemma mark_read_stops_at_failure_witness :
  let w := world1 REQUESTED 0 quiet_clock in
  let w' := (consume collab_failing 3 mark_event w).2 in
  (consume collab_failing 3 mark_event w).1 = Raise (OtherException "OperationalError")
  ∧ count is_completion_log (effects_since w w') = 0%nat
  ∧ List.filter is_mark_call (effects_since w w') = mark_call user1 <$> [9; 11].
Proof.
  intros w w'.
  apply (mark_read_stops_at_failure collab_failing 3 mark_event w (VInt 7) (store w)
           user1 [9] 11 [12] (OtherException "OperationalError"));
    [reflexivity | reflexivity | reflexivity | reflexivity | | intros s; reflexivity].
  intros s r' Hr. apply list_elem_of_singleton in Hr as ->. by exists s, 3.
Defined.

Lemma event_without_type_witness :
  let C := collab (Returns tt) (Returns tt) in
  let w := world1 REQUESTED 0 quiet_clock in
  consume C 3 ∅ w = (Raise (KeyError "type"), tick_wall w).
Proof.
  intros C w. exact (event_without_type C 3 ∅ w eq_refl).
Defined.

Lemma bouncer_update_error_not_retried_witness :
  let w := world1 REQUESTED 0 quiet_clock in
  (consume collab_failing 3 bouncer_event w).1
  = Raise PushNotificationBouncerRetryLaterError
  ∧ queue (consume collab_failing 3 bouncer_event w).2 = [].
Proof.
  intros w.
  destruct (bouncer_update_error_not_retried collab_failing 3 bouncer_event w (VInt 1)
              (store w) PushNotificationBouncerRetryLaterError eq_refl eq_refl eq_refl)
    as (Hc & Hq).
  split; [by rewrite Hc|exact Hq].
Defined.

Lemma clear_tokens_success_no_retry_witness :
  let C := collab (Returns tt) (Returns tt) in
  let w := world1 REQUESTED 0 quiet_clock in
  let r := consume C 3 clear_event w in
  r.1 = Ok tt ∧ queue r.2 = [] ∧ count is_max_retries_warning (effects_since w r.2) = 0%nat.
Proof.
  intros C w r.
  destruct (clear_tokens_success_no_retry C 3 clear_event (VInt 7) w (store w)
              eq_refl eq_refl eq_refl)
    as (Hr & _ & Hq & Ht).
  split; [exact Hr|]. split; [exact Hq|].
  fold r in Ht. rewrite Ht. reflexivity.
Defined.

Lemma soft_reactivate_unknown_user_witness :
  let C := collab (Returns tt) (Returns tt) in
  let w := world1 REQUESTED 0 quiet_clock in
  (consume C 3 (reactivate_event 8) w).1 = Raise (DoesNotExist "UserProfile")
  ∧ count is_call (effects_since w (consume C 3 (reactivate_event 8) w).2) = 1%nat.
Proof.
  intros C w.
  rewrite (soft_reactivate_unknown_user C 3 (reactivate_event 8) w (VInt 8) (store w)
             (DoesNotExist "UserProfile") eq_refl eq_refl eq_refl).
  split; reflexivity.
Defined.

Lemma soft_reactivate_calls_once_witness :
  let C := collab (Returns tt) (Returns tt) in
  let w := world1 REQUESTED 0 quiet_clock in
  let r := consume C 3 (reactivate_event 7) w in
  r.1 = Ok tt
  ∧ effects_since w r.2
    = [Log module_logger INFO "Starting soft reactivation for user_profile_id %s"
         [AVal (VInt 7)];
       Call fn_get_user_profile_by_id [AVal (VInt 7)];
       Call fn_reactivate_user_if_soft_deactivated [AInt 7];
       completion_log (VStr "soft_reactivate") 0%Q 1%Q].
Proof.
  intros C w r.
  exact (proj2 (proj2 (soft_reactivate_calls_once C 3 (reactivate_event 7) w (VInt 7)
                         (store w) user1 (store w) (Returns tt)
                         eq_refl eq_refl eq_refl eq_refl))).
Defined.

Lemma reupload_emoji_loads_realm_witness :
  let C := collab (Returns tt) (Returns tt) in
  let w := world1 REQUESTED 0 quiet_clock in
  let r := consume C 3 emoji_event w in
  store r.2 = store w
  ∧ List.filter is_call (effects_since w r.2) = [Call fn_handle_reupload_emojis_event [AInt 1]].
Proof.
  intros C w r.
  destruct (reupload_emoji_loads_realm C 3 emoji_event w 1 eq_refl eq_refl)
    as (Hs & _ & Hc & _).
  split; [exact Hs|exact Hc].
Defined.
